(** * shrek: a console logger for TON sandbox tests

    Shallow embedding of [src/index.ts]: the coin formatter
    ([pow10], [formatCoinsPure], [formatCoins]), the label registry of the
    [Logger] class ([addContract], [getContractLabel], [shortenString]) and the
    transaction summarizer ([formatTransaction], [logTransactions]).

    Conventions of the embedding.
    - A JS [bigint] is a [Z]; [/] and [%] on bigints truncate towards zero,
      hence [Z.quot] and [Z.rem].
    - A JS [number] that the code only uses as an integer (precision, exit
      code, action count, the 32-bit opcode) is a [Z].
    - A JS string is a [string]: a sequence of code units, one [ascii] each.
      All strings the code builds by itself are ASCII apart from the
      infinity sentinel, which is only ever returned whole.
    - The [Map] of labels is a [gmap string string].
    - An exception is a value of [Error] returned on the left of a sum, next
      to the state the call leaves behind. *)

From Stdlib Require Import ZArith Lia Ascii String List.
From stdpp Require Import gmap strings list fin_maps.

Local Open Scope Z_scope.

(* stdpp blocks [simpl] on string append; the proofs below compute with it. *)
#[local] Arguments String.append !s1 s2 : simpl nomatch.

(** ** JS string primitives used by the source *)

Module JsString.

(** [s.length] *)
Definition len (s : string) : Z := Z.of_nat (String.length s).

(** The filler of [padStart]: [fill] repeated, cut after [k] code units.
    [cur] is what is left of the copy being emitted. *)
Fixpoint repeatFill (k : nat) (fill cur : string) : string :=
  match k with
  | O => EmptyString
  | S k' =>
      match cur with
      | String c r => String c (repeatFill k' fill r)
      | EmptyString =>
          match fill with
          | String c r => String c (repeatFill k' fill r)
          | EmptyString => EmptyString
          end
      end
  end.

(** [s.padStart(target, fill)]: [s] itself when it is long enough or the
    filler is empty, else the truncated repetition of [fill] before [s]. *)
Definition padStart (s : string) (target : Z) (fill : string) : string :=
  if target <=? len s then s
  else match fill with
       | EmptyString => s
       | _ => repeatFill (Z.to_nat (target - len s)) fill fill +:+ s
       end.

(** [s.replace(/0+$/, "")]: the only match of the pattern is the maximal run
    of ["0"] that ends the string; it is deleted. *)
Fixpoint stripTrailingZeros (s : string) : string :=
  match s with
  | EmptyString => EmptyString
  | String c r =>
      match stripTrailingZeros r with
      | EmptyString => if Ascii.eqb c "0" then EmptyString else String c EmptyString
      | r' => String c r'
      end
  end.

(** [s.slice(0, n)] for [0 <= n]. *)
Fixpoint sliceFirst (n : nat) (s : string) : string :=
  match n, s with
  | S n', String c r => String c (sliceFirst n' r)
  | _, _ => EmptyString
  end.

Fixpoint dropFirst (n : nat) (s : string) : string :=
  match n, s with
  | S n', String _ r => dropFirst n' r
  | _, _ => s
  end.

(** [s.slice(-n)] for [0 < n]: the start index is [max (length - n) 0]. *)
Definition sliceLast (n : nat) (s : string) : string :=
  dropFirst (String.length s - n) s.

(** The character of a digit value below 16, as [toString] prints it. *)
Definition digitChar (d : Z) : ascii :=
  match d with
  | 0 => "0" | 1 => "1" | 2 => "2" | 3 => "3" | 4 => "4"
  | 5 => "5" | 6 => "6" | 7 => "7" | 8 => "8" | 9 => "9"
  | 10 => "a" | 11 => "b" | 12 => "c" | 13 => "d" | 14 => "e"
  | _ => "f"
  end%char.

(** Digits of a non-negative integer in [radix], most significant first,
    pushed in front of [acc]. [fuel] bounds the number of digits. *)
Fixpoint digitsFrom (fuel : nat) (radix n : Z) (acc : string) : string :=
  match fuel with
  | O => acc
  | S fuel' =>
      let acc' := String (digitChar (n mod radix)) acc in
      if n / radix =? 0 then acc' else digitsFrom fuel' radix (n / radix) acc'
  end.

(** A number below [2 ^ k] has at most [k] digits in any radix from 2 on;
    [log2 n + 1] is such a [k]. *)
Definition digitFuel (n : Z) : nat := S (Z.to_nat (Z.log2 n)).

Definition natToString (radix n : Z) : string :=
  digitsFrom (digitFuel n) radix n EmptyString.

(** [n.toString(radix)] of an integer: a minus sign before the digits of the
    absolute value when negative. *)
Definition toStringRadix (radix n : Z) : string :=
  if n <? 0 then String "-"%char (natToString radix (- n))
  else natToString radix n.

(** [n.toString()] of a bigint. *)
Definition toString (n : Z) : string := toStringRadix 10 n.

End JsString.

(** ** The coin formatter *)

(** [const decimalCount = 9] *)
Definition decimalCount : Z := 9.

(** The loop of [pow10]: [k] iterations left, accumulator [v]. *)
Fixpoint pow10_loop (k : nat) (v : Z) : Z :=
  match k with
  | O => v
  | S k' => pow10_loop k' (v * 10)
  end.

(** [pow10(n)]: the loop [for (i = 0; i < n; i++) v *= 10n], which runs
    [n] times for a positive integer [n] and not at all otherwise. *)
Definition pow10 (n : Z) : Z := pow10_loop (Z.to_nat n) 1.

(** [const decimal = pow10(decimalCount)] *)
Definition decimal : Z := pow10 decimalCount.

(** The arithmetic of [formatCoinsPure] up to [frac /= precisionDecimal]:
    the final values of [whole] and [frac]. *)
Definition roundCoins (value precision : Z) : Z * Z :=
  let whole := Z.quot value decimal in
  let frac := Z.rem value decimal in
  let precisionDecimal := pow10 (decimalCount - precision) in
  let '(whole, frac) :=
    if Z.rem frac precisionDecimal >? 0 then
      let frac := frac + precisionDecimal in
      if frac >=? decimal then (whole + 1, frac - decimal) else (whole, frac)
    else (whole, frac) in
  (whole, Z.quot frac precisionDecimal).

(** The template literal that [formatCoinsPure] returns. *)
Definition renderCoins (whole frac precision : Z) : string :=
  JsString.toString whole +:+
  (if negb (frac =? 0) then
     "." +:+ JsString.stripTrailingZeros
               (JsString.padStart (JsString.toString frac) precision "0")
   else "").

(** [formatCoinsPure(value, precision)] *)
Definition formatCoinsPure (value precision : Z) : string :=
  let '(whole, frac) := roundCoins value precision in
  renderCoins whole frac precision.

(** The argument of [formatCoins]: [bigint | undefined | null]. *)
Inductive CoinsArg : Type :=
  | CoinsUndefined
  | CoinsNull
  | Coins (value : Z).

(** The string returned for an absent amount. *)
Definition infinitySentinel : string := "∞".

(** The default value of the [precision] parameters. *)
Definition defaultPrecision : Z := 6.

(** [formatCoins(value, precision)] *)
Definition formatCoins (value : CoinsArg) (precision : Z) : string :=
  match value with
  | CoinsUndefined | CoinsNull => infinitySentinel
  | Coins v => formatCoinsPure v precision
  end.

(** ** The data the logger reads

    The types of [@ton/core] that [Logger] consumes, reduced to the fields the
    code reads. *)

(** [ExternalAddress]: the other kind of address a message may carry;
    [Address.isAddress] is false on it. *)
Record ExternalAddress : Type := { extValue : Z; extBits : Z }.

(** [Cell], as far as [beginParse()], [remainingBits] and [preloadUint] see
    it: its data bits in order. *)
Record Cell : Type := { cellBits : list bool }.

(** [Slice]: the bits not yet read. *)
Record Slice : Type := { sliceBits : list bool }.

Definition beginParse (c : Cell) : Slice := {| sliceBits := cellBits c |}.

Definition remainingBits (s : Slice) : Z := Z.of_nat (List.length (sliceBits s)).

(** Big-endian value of the first [k] bits of [bits], continuing from [acc]. *)
Fixpoint readUint (k : nat) (bits : list bool) (acc : Z) : Z :=
  match k, bits with
  | S k', b :: rest => readUint k' rest (2 * acc + (if b then 1 else 0))
  | _, _ => acc
  end.

(** [slice.preloadUint(n)], called only where [n] bits remain. *)
Definition preloadUint (n : nat) (s : Slice) : Z := readUint n (sliceBits s) 0.

(** [TransactionComputePhase]: [type] is ["skipped"] or ["vm"]. *)
Inductive TransactionComputePhase : Type :=
  | ComputeSkipped
  | ComputeVm (exitCode : Z).

Record TransactionActionPhase : Type := { totalActions : Z }.

(** [TransactionDescription], a tagged union on [type]; only the generic
    variant is read beyond its tag. *)
Inductive TransactionDescription : Type :=
  | DescGeneric (computePhase : TransactionComputePhase)
                (actionPhase : option TransactionActionPhase)
  | DescStorage
  | DescTickTock
  | DescSplitPrepare
  | DescSplitInstall
  | DescMergePrepare
  | DescMergeInstall.

Definition descriptionType (d : TransactionDescription) : string :=
  match d with
  | DescGeneric _ _ => "generic"
  | DescStorage => "storage"
  | DescTickTock => "tick-tock"
  | DescSplitPrepare => "split-prepare"
  | DescSplitInstall => "split-install"
  | DescMergePrepare => "merge-prepare"
  | DescMergeInstall => "merge-install"
  end.

(** A value stored in a field of the object [formatTransaction] returns. *)
Inductive JsValue : Type :=
  | JsUndefined
  | JsStr (s : string)
  | JsNum (n : Z)
  | JsArr (items : list string).

(** An object literal: its properties in insertion order. *)
Definition JsObject : Type := list (string * JsValue).

(** [key in obj] *)
Definition hasProperty (key : string) (obj : JsObject) : bool :=
  existsb (fun kv => String.eqb (fst kv) key) obj.

(** [obj[key]]: [undefined] for a missing property. *)
Fixpoint getProperty (key : string) (obj : JsObject) : JsValue :=
  match obj with
  | [] => JsUndefined
  | (k, v) :: rest => if String.eqb k key then v else getProperty key rest
  end.

(** [v !== undefined] *)
Definition isDefined (v : JsValue) : bool :=
  match v with
  | JsUndefined => false
  | _ => true
  end.

(** What the logger sends to the console. *)
Inductive ConsoleCall : Type :=
  | ConsoleInfo (text : string)
  | ConsoleTable (rows : list (option JsObject)).

(** The exception [addContract] throws. *)
Inductive Error : Type := MkError (message : string).

(** [shortenString(str)] *)
Definition shortenString (str : string) : string :=
  if JsString.len str <=? 8 then str
  else JsString.sliceFirst 4 str +:+ "..." +:+ JsString.sliceLast 4 str.

Section Logger.

(** [Address] of [@ton/core] and its [toString()]. *)
Context {Address : Type} (addressToString : Address -> string).

(** [CommonMessageInfo], a tagged union on [type]. *)
Inductive CommonMessageInfo : Type :=
  | InfoInternal (src dest : Address) (coins : Z)
  | InfoExternalOut (src : Address) (dest : option ExternalAddress)
  | InfoExternalIn (src : option ExternalAddress) (dest : Address).

(** [info.type] *)
Definition infoType (info : CommonMessageInfo) : string :=
  match info with
  | InfoInternal _ _ _ => "internal"
  | InfoExternalOut _ _ => "external-out"
  | InfoExternalIn _ _ => "external-in"
  end.

(** [info.src] when it is there and [Address.isAddress] holds of it. *)
Definition infoSrcAddress (info : CommonMessageInfo) : option Address :=
  match info with
  | InfoInternal src _ _ => Some src
  | InfoExternalOut src _ => Some src
  | InfoExternalIn _ _ => None
  end.

(** [info.dest] when it is there and [Address.isAddress] holds of it. *)
Definition infoDestAddress (info : CommonMessageInfo) : option Address :=
  match info with
  | InfoInternal _ dest _ => Some dest
  | InfoExternalOut _ _ => None
  | InfoExternalIn _ dest => Some dest
  end.

(** [Message]; the code reads [body] through [?.]. *)
Record Message : Type := { info : CommonMessageInfo; body : option Cell }.

(** [Transaction]; [outMessages] holds [tx.outMessages.values()]. *)
Record Transaction : Type := {
  inMessage : option Message;
  outMessages : list Message;
  totalFees : Z;
  description : TransactionDescription
}.

(** The argument of [addContract]: an opened contract, an address or a string. *)
Inductive ContractRef : Type :=
  | RefContract (address : Address)
  | RefAddress (address : Address)
  | RefString (s : string).

(** [getAddressString(contract)] *)
Definition getAddressString (contract : ContractRef) : string :=
  match contract with
  | RefContract address => addressToString address
  | RefString s => s
  | RefAddress address => addressToString address
  end.

(** [addContract(contract, label)] on the map [this.contractLabels]: the
    exception or the normal return, and the map afterwards. *)
Definition addContract (contract : ContractRef) (label : string)
    (contractLabels : gmap string string) : (Error + unit) * gmap string string :=
  let address := getAddressString contract in
  match contractLabels !! address with
  | Some _ =>
      (inl (MkError ("The '" +:+ address +:+ "' contract already has a '"
                      +:+ label +:+ "' label!")),
       contractLabels)
  | None => (inr tt, <[address := label]> contractLabels)
  end.

(** [getContractLabel(address)]: [||] takes its right operand when the left
    one is [undefined] or the empty string. *)
Definition getContractLabel (contractLabels : gmap string string)
    (address : Address) : string :=
  match contractLabels !! addressToString address with
  | Some (String c r) => String c r
  | Some EmptyString | None => shortenString (addressToString address)
  end.

(** The [Opcode] field. *)
Definition opcodeField (tx : Transaction) : JsValue :=
  let body :=
    match inMessage tx with
    | Some m =>
        match info m with
        | InfoInternal _ _ _ => option_map beginParse (body m)
        | _ => None
        end
    | None => None
    end in
  match body with
  | Some b =>
      if remainingBits b >=? 32
      then JsStr ("0x" +:+ JsString.toStringRadix 16 (preloadUint 32 b))
      else JsStr "0gR33n0gr"
  | None => JsStr "0gR33n0gr"
  end.

(** The label of an optional address, [fallback] when there is none. *)
Definition labelOr (contractLabels : gmap string string) (fallback : string)
    (a : option Address) : string :=
  match a with
  | Some a => getContractLabel contractLabels a
  | None => fallback
  end.

(** The [Outgoing Value] field. The [map] runs over what the [filter] kept,
    so its argument is always an internal message and [value.coins] is
    there; the other branch of the [match] is never taken. *)
Definition outgoingValueField (tx : Transaction) : JsValue :=
  if Z.of_nat (List.length (outMessages tx)) =? 0 then JsStr "No coins!"
  else
    JsArr
      (List.map
         (fun msg =>
            formatCoins
              (match info msg with
               | InfoInternal _ _ coins => Coins coins
               | _ => CoinsUndefined
               end)
              defaultPrecision)
         (List.filter (fun msg => String.eqb (infoType (info msg)) "internal")
            (outMessages tx))).

(** [formatTransaction(tx)]: [None] is [undefined]. *)
Definition formatTransaction (contractLabels : gmap string string)
    (tx : Transaction) : option JsObject :=
  match description tx with
  | DescGeneric computePhase actionPhase =>
      let sourceLabel :=
        labelOr contractLabels "Shrek"
          (match inMessage tx with
           | Some m => infoSrcAddress (info m)
           | None => None
           end) in
      let destinationLabel :=
        labelOr contractLabels "Donkey"
          (match inMessage tx with
           | Some m => infoDestAddress (info m)
           | None => None
           end) in
      Some
        [ ("Source", JsStr sourceLabel);
          ("Destination", JsStr destinationLabel);
          ("Type", match inMessage tx with
                   | Some m => JsStr (infoType (info m))
                   | None => JsUndefined
                   end);
          ("Opcode", opcodeField tx);
          ("Incoming Value",
            JsStr (formatCoins
                     (match inMessage tx with
                      | Some m =>
                          match info m with
                          | InfoInternal _ _ coins => Coins coins
                          | _ => CoinsUndefined
                          end
                      | None => CoinsUndefined
                      end)
                     defaultPrecision));
          ("Outgoing Value", outgoingValueField tx);
          ("Total Fees", JsStr (formatCoins (Coins (totalFees tx)) defaultPrecision));
          ("Outgoing Actions Count",
            match actionPhase with
            | Some a => JsNum (totalActions a)
            | None => JsStr "No actions here?"
            end);
          ("Exit Code",
            match computePhase with
            | ComputeVm exitCode => JsNum exitCode
            | ComputeSkipped => JsStr "Ogres have layers?"
            end) ]
  | _ => None
  end.

(** [logTransactions(transactions, info)]: the console calls it makes. The
    promises of [formatTransaction] never suspend, so [Promise.all] yields
    their results in the order of [transactions]. *)
Definition logTransactions (contractLabels : gmap string string)
    (transactions : list Transaction) (info : option string) : list ConsoleCall :=
  let formattedTransactions :=
    List.map (formatTransaction contractLabels) transactions in
  (match info with
   | Some (String c r) => [ConsoleInfo (String c r)]
   | _ => []
   end)
  ++ [ConsoleTable
        (List.filter (fun tx => match tx with Some _ => true | None => false end)
           formattedTransactions)].

(** The amounts of the internal messages of [msgs], in the order of [msgs]:
    the list the [Outgoing Value] field is compared with. *)
Fixpoint internalCoins (msgs : list Message) : list Z :=
  match msgs with
  | [] => []
  | msg :: rest =>
      match info msg with
      | InfoInternal _ _ coins => coins :: internalCoins rest
      | _ => internalCoins rest
      end
  end.

(** The test of the gate of [formatTransaction], with its sense reversed:
    [tx.description.type === "generic"]. *)
Definition isGeneric (tx : Transaction) : bool :=
  String.eqb (descriptionType (description tx)) "generic".

(** The inbound message carries a tag to print: it is internal and its body
    holds 32 bits or more. *)
Definition hasOpcode (tx : Transaction) (bits : list bool) : Prop :=
  exists m src dest coins,
    inMessage tx = Some m /\ info m = InfoInternal src dest coins /\
    body m = Some {| cellBits := bits |} /\ 32 <= Z.of_nat (List.length bits).

End Logger.

(** ** The formatter as the specification words it

    A second definition of the formatter, written from the prose of the
    specification, with which [formatCoinsPure] is compared. *)

Module Spec.

(** [k] zeros. *)
Fixpoint zeros (k : nat) : string :=
  match k with
  | O => EmptyString
  | S k' => String "0" (zeros k')
  end.

(** "zero-padded on the left to [p] digits" *)
Definition padLeftZeros (p : Z) (s : string) : string :=
  zeros (Z.to_nat (p - JsString.len s)) +:+ s.

(** The list without its leading zeros. *)
Fixpoint dropLeadingZeros (l : list ascii) : list ascii :=
  match l with
  | c :: r => if Ascii.eqb c "0" then dropLeadingZeros r else l
  | [] => []
  end.

(** "with trailing zeros stripped": leading zeros of the reversed string. *)
Definition stripZerosRight (s : string) : string :=
  string_of_list_ascii
    (List.rev (dropLeadingZeros (List.rev (list_ascii_of_string s)))).

(** The rounding of the specification, with floor division and modulus on
    a non-negative amount and exact powers of ten: the whole part and the
    display numerator. *)
Definition round (amount precision : Z) : Z * Z :=
  let whole := amount / 10 ^ 9 in
  let frac := amount mod 10 ^ 9 in
  let unit := 10 ^ (9 - precision) in
  let frac1 := if 0 <? frac mod unit then frac + unit else frac in
  let carry := (0 <? frac mod unit) && (10 ^ 9 <=? frac1) in
  (if carry then whole + 1 else whole,
   (if carry then frac1 - 10 ^ 9 else frac1) / unit).

(** The algorithm of the specification: the rounding, then the whole part
    followed, when the numerator is not zero, by a point and the numerator
    padded to [precision] digits and stripped of its trailing zeros. *)
Definition format (amount precision : Z) : string :=
  let '(whole, numerator) := round amount precision in
  JsString.toString whole +:+
  (if numerator =? 0 then ""
   else "." +:+ stripZerosRight (padLeftZeros precision (JsString.toString numerator))).

(** The shortened form of an address string: itself up to 8 characters,
    else its first 4 characters, an ellipsis and its last 4 characters. *)
Definition shortened (s : string) : string :=
  if (String.length s <=? 8)%nat then s
  else String.substring 0 4 s +:+ "..." +:+ String.substring (String.length s - 4) 4 s.

End Spec.

(** ** The value a decimal string denotes

    Reading back what the formatter prints: a numeral [W] or [W.F] of decimal
    digits, valued in subunits (one unit is [10 ^ 9] subunits). *)

Module Decimal.

Definition digitOf (c : ascii) : option Z :=
  let n := Z.of_N (N_of_ascii c) in
  if (48 <=? n) && (n <=? 57) then Some (n - 48) else None.

(** Horner evaluation of a string of digits, from the value [acc] of the
    digits already read. *)
Fixpoint digitsValue (s : string) (acc : Z) : option Z :=
  match s with
  | EmptyString => Some acc
  | String c r =>
      match digitOf c with
      | Some d => digitsValue r (10 * acc + d)
      | None => None
      end
  end.

(** The value of a non-empty string of digits. *)
Definition numeral (s : string) : option Z :=
  match s with
  | EmptyString => None
  | _ => digitsValue s 0
  end.

(** The text before the first point and, if there is a point, the text
    after it. *)
Fixpoint splitPoint (s : string) : string * option string :=
  match s with
  | EmptyString => (EmptyString, None)
  | String c r =>
      if Ascii.eqb c "." then (EmptyString, Some r)
      else let '(w, f) := splitPoint r in (String c w, f)
  end.

(** The value in subunits denoted by [W] or [W.F], where [F] has at most 9
    digits: [W * 10^9 + F * 10^(9 - |F|)]. *)
Definition subunitsOf (s : string) : option Z :=
  let '(w, f) := splitPoint s in
  match numeral w with
  | None => None
  | Some wv =>
      match f with
      | None => Some (wv * 10 ^ 9)
      | Some fs =>
          match numeral fs with
          | None => None
          | Some fv =>
              if JsString.len fs <=? 9
              then Some (wv * 10 ^ 9 + fv * 10 ^ (9 - JsString.len fs))
              else None
          end
      end
  end.

(** The amount cut down to the grid of [10 ^ (9 - precision)] subunits. *)
Definition truncateToGrid (amount precision : Z) : Z :=
  amount / 10 ^ (9 - precision) * 10 ^ (9 - precision).

(** The amount raised to the grid of [10 ^ (9 - precision)] subunits. *)
Definition raiseToGrid (amount precision : Z) : Z :=
  (amount + 10 ^ (9 - precision) - 1) / 10 ^ (9 - precision) * 10 ^ (9 - precision).

End Decimal.

(** ** The table of balances

    [logContracts], [getContractData] and [getContractBalance] walk the map
    of labels in insertion order, so here the [Map] is the list of its
    entries, oldest first; [labelsOf] gives back the map the other methods
    read. The ledger and the address parser are outside the repository: a
    call of theirs either returns or throws. *)

(** The entries of [this.contractLabels], in insertion order. *)
Definition LabelEntries : Type := list (string * string).

(** [map.has(key)] *)
Definition entriesHas (key : string) (entries : LabelEntries) : bool :=
  existsb (fun kv => String.eqb (fst kv) key) entries.

(** The map the entries represent. *)
Definition labelsOf (entries : LabelEntries) : gmap string string :=
  list_to_map entries.

(** What [logContracts] and its helpers send to the console. *)
Inductive BalanceConsoleCall : Type :=
  | ConsoleError (text : string) (error : Error)
  | ConsoleBalances (rows : list JsObject).

(** The object pushed for one entry:
    [{ "Contract": label, "Contract Balance": formatCoins(balance) }]. *)
Definition balanceRow (label : string) (balance : Z) : JsObject :=
  [("Contract", JsStr label);
   ("Contract Balance", JsStr (formatCoins (Coins balance) defaultPrecision))].

Section Balances.

Context {Address : Type} (addressToString : Address -> string).

(** [Address.parse(text)]: the address or the exception. *)
Context (addressParse : string -> Error + Address).

(** [(await blockchain.getContract(address)).balance]: the balance, or the
    error the promise is rejected with. *)
Context (getContractBalanceOf : Address -> Error + Z).

(** [addContract(contract, label)] on the entries: a new key goes to the
    end; [set] is never reached for a key that is there. *)
Definition addContractOrdered (contract : ContractRef (Address := Address))
    (label : string) (entries : LabelEntries) : (Error + unit) * LabelEntries :=
  let address := getAddressString addressToString contract in
  if entriesHas address entries then
    (inl (MkError ("The '" +:+ address +:+ "' contract already has a '"
                    +:+ label +:+ "' label!")),
     entries)
  else (inr tt, entries ++ [(address, label)]).

(** [getContractBalance(address)]: the console calls, and the balance or the
    error thrown again after [console.error]. *)
Definition getContractBalance (address : Address)
    : list BalanceConsoleCall * (Error + Z) :=
  match getContractBalanceOf address with
  | inr balance => ([], inr balance)
  | inl error =>
      ([ConsoleError "Error fetching contract balance:" error], inl error)
  end.

(** The loop of [getContractData] over the entries not yet visited, [data]
    being the rows pushed so far. An exception ends the loop. *)
Fixpoint getContractDataLoop (entries : LabelEntries) (data : list JsObject)
    : list BalanceConsoleCall * (Error + list JsObject) :=
  match entries with
  | [] => ([], inr data)
  | (addressAsString, label) :: rest =>
      match addressParse addressAsString with
      | inl error => ([], inl error)
      | inr address =>
          match getContractBalance address with
          | (calls, inl error) => (calls, inl error)
          | (calls, inr balance) =>
              let '(calls', result) :=
                getContractDataLoop rest (data ++ [balanceRow label balance]) in
              (calls ++ calls', result)
          end
      end
  end.

(** [getContractData()] *)
Definition getContractData (entries : LabelEntries)
    : list BalanceConsoleCall * (Error + list JsObject) :=
  getContractDataLoop entries [].

(** [logContracts()]: the table is printed only when the data came back. *)
Definition logContracts (entries : LabelEntries)
    : list BalanceConsoleCall * (Error + unit) :=
  match getContractData entries with
  | (calls, inl error) => (calls, inl error)
  | (calls, inr data) => (calls ++ [ConsoleBalances data], inr tt)
  end.

(** The entry is an address the ledger knows, with this balance. *)
Definition fetched (entry : string * string) (balance : Z) : Prop :=
  exists address,
    addressParse (fst entry) = inr address /\
    getContractBalanceOf address = inr balance.

End Balances.

(** ** Sample data

    Concrete inputs at which the properties below are evaluated. Addresses
    are given by their string form. *)

Module Sample.

Definition addressText (a : string) : string := a.

(** A generic transaction without inbound and outbound messages whose
    compute phase was skipped. *)
Definition bare : Transaction (Address := string) :=
  {| inMessage := None;
     outMessages := [];
     totalFees := 0;
     description := DescGeneric ComputeSkipped None |}.

(** A generic transaction with an internal inbound message that sends one
    internal and one external message. *)
Definition transfer : Transaction (Address := string) :=
  {| inMessage :=
       Some {| info := InfoInternal "EQAAAAAAAAAAAAAAA" "EQBBBB" 50000000;
               body := Some {| cellBits := [] |} |};
     outMessages :=
       [ {| info := InfoExternalOut "EQBBBB" None; body := None |};
         {| info := InfoInternal "EQBBBB" "EQAAAAAAAAAAAAAAA" 1500000000;
            body := None |} ];
     totalFees := 123456789;
     description := DescGeneric (ComputeVm 0) (Some {| totalActions := 2 |}) |}.

(** A transaction that only sends external messages. *)
Definition emitter : Transaction (Address := string) :=
  {| inMessage := None;
     outMessages := [ {| info := InfoExternalOut "EQBBBB" None; body := None |} ];
     totalFees := 0;
     description := DescGeneric (ComputeVm 0) None |}.

(** A transaction that is not generic. *)
Definition storage : Transaction (Address := string) :=
  {| inMessage := None;
     outMessages := [];
     totalFees := 1;
     description := DescStorage |}.

End Sample.

(** A ledger and an address parser to evaluate the table of balances on:
    strings that start with "EQ" are addresses, and the account "EQBBBB"
    cannot be fetched. *)

Module SampleLedger.

Definition parse (text : string) : Error + string :=
  if String.prefix "EQ" text then inr text
  else inl (MkError "Unknown address type").

Definition balanceOf (address : string) : Error + Z :=
  if String.eqb address "EQBBBB" then inl (MkError "Account not found")
  else inr 1500000000.

End SampleLedger.

(** * Properties *)

Example formatCoinsPure_ex1 : formatCoinsPure 123456789 6 = "0.123457".
Proof. vm_compute. reflexivity. Qed.

Example formatCoinsPure_ex2 : formatCoinsPure 1500000000 6 = "1.5".
Proof. vm_compute. reflexivity. Qed.

Example formatCoinsPure_ex3 : formatCoinsPure 50000000 6 = "0.05".
Proof. vm_compute. reflexivity. Qed.

Example formatCoinsPure_ex4 : formatCoinsPure 999999999 0 = "1".
Proof. vm_compute. reflexivity. Qed.

Example formatCoinsPure_ex5 : formatCoinsPure 1000000001 9 = "1.000000001".
Proof. vm_compute. reflexivity. Qed.

Example spec_format_ex1 : Spec.format 123456789 6 = "0.123457".
Proof. vm_compute. reflexivity. Qed.

Example spec_format_ex2 : Spec.format 50000000 6 = "0.05".
Proof. vm_compute. reflexivity. Qed.

Example subunitsOf_ex1 : Decimal.subunitsOf "0.05" = Some 50000000.
Proof. vm_compute. reflexivity. Qed.

Example subunitsOf_ex2 : Decimal.subunitsOf "12" = Some 12000000000.
Proof. vm_compute. reflexivity. Qed.

Example subunitsOf_ex3 : Decimal.subunitsOf "1.x" = None.
Proof. vm_compute. reflexivity. Qed.

Example shortenString_ex1 :
  shortenString "EQBGhqLAZseEqRXz4ByFPTGV7SVMlI4hrbs-Sps_Xzx01x8G" = "EQBG...1x8G".
Proof. vm_compute. reflexivity. Qed.

Example toStringRadix_ex1 : JsString.toStringRadix 16 2147483648 = "80000000".
Proof. vm_compute. reflexivity. Qed.

(** ** Powers of ten *)

Lemma pow10_loop_spec (k : nat) (v : Z) : pow10_loop k v = v * 10 ^ Z.of_nat k.
Proof.
  revert v. induction k as [|k IH]; intros v.
  - simpl. lia.
  - cbn [pow10_loop]. rewrite IH, Nat2Z.inj_succ, Z.pow_succ_r by lia. lia.
Qed.

Lemma pow10_spec (n : Z) : 0 <= n -> pow10 n = 10 ^ n.
Proof.
  intros Hn. unfold pow10. rewrite pow10_loop_spec, Z2Nat.id by lia. lia.
Qed.

Lemma pow10_nonpos (n : Z) : n <= 0 -> pow10 n = 1.
Proof.
  intros Hn. unfold pow10. replace (Z.to_nat n) with O by lia. reflexivity.
Qed.

Lemma decimal_spec : decimal = 10 ^ 9.
Proof. reflexivity. Qed.

(** A precision in range is one of ten integers. *)
Lemma precision_cases (p : Z) :
  0 <= p <= 9 ->
  p = 0 \/ p = 1 \/ p = 2 \/ p = 3 \/ p = 4 \/
  p = 5 \/ p = 6 \/ p = 7 \/ p = 8 \/ p = 9.
Proof. lia. Qed.

Ltac each_precision p H :=
  destruct (precision_cases p H) as
    [-> | [-> | [-> | [-> | [-> | [-> | [-> | [-> | [-> | ->]]]]]]]]].

(** ** Strings *)

Lemma string_app_empty_r (s : string) : s +:+ "" = s.
Proof. induction s as [|c r IH]; simpl; [reflexivity | now rewrite IH]. Qed.

Lemma string_app_assoc (s t u : string) : (s +:+ t) +:+ u = s +:+ (t +:+ u).
Proof. induction s as [|c r IH]; simpl; [reflexivity | now rewrite IH]. Qed.

Lemma string_app_length (s t : string) :
  String.length (s +:+ t) = (String.length s + String.length t)%nat.
Proof. induction s as [|c r IH]; simpl; [reflexivity | now rewrite IH]. Qed.

Lemma zeros_length (k : nat) : String.length (Spec.zeros k) = k.
Proof. induction k as [|k IH]; simpl; [reflexivity | now rewrite IH]. Qed.

Lemma repeatFill_zero (k : nat) (cur : string) :
  cur = "" \/ cur = "0" -> JsString.repeatFill k "0" cur = Spec.zeros k.
Proof.
  revert cur. induction k as [|k IH]; intros cur Hcur; [reflexivity|].
  destruct Hcur as [-> | ->]; cbn [JsString.repeatFill Spec.zeros];
    rewrite IH; auto.
Qed.

(** [padStart] with the filler ["0"] pads with zeros on the left. *)
Lemma padStart_zero (s : string) (p : Z) :
  JsString.padStart s p "0" = Spec.padLeftZeros p s.
Proof.
  unfold JsString.padStart, Spec.padLeftZeros.
  destruct (Z.leb_spec p (JsString.len s)) as [Hle | Hlt].
  - replace (Z.to_nat (p - JsString.len s)) with O by lia. reflexivity.
  - rewrite repeatFill_zero by auto. reflexivity.
Qed.

Lemma padLeftZeros_length (s : string) (p : Z) :
  JsString.len s <= p -> JsString.len (Spec.padLeftZeros p s) = p.
Proof.
  unfold Spec.padLeftZeros, JsString.len. intros Hle.
  rewrite string_app_length, zeros_length. lia.
Qed.

(** ** Stripping trailing zeros *)

Lemma dropLeadingZeros_snoc (l : list ascii) (c : ascii) :
  Spec.dropLeadingZeros (l ++ [c]) =
  match Spec.dropLeadingZeros l with
  | [] => if Ascii.eqb c "0" then [] else [c]
  | l' => l' ++ [c]
  end.
Proof.
  induction l as [|d l IH]; simpl.
  - reflexivity.
  - destruct (Ascii.eqb d "0"); [exact IH | reflexivity].
Qed.

Lemma stripTrailingZeros_list (s : string) :
  list_ascii_of_string (JsString.stripTrailingZeros s) =
  List.rev (Spec.dropLeadingZeros (List.rev (list_ascii_of_string s))).
Proof.
  induction s as [|c r IH]; [reflexivity|].
  cbn [JsString.stripTrailingZeros list_ascii_of_string List.rev].
  rewrite dropLeadingZeros_snoc.
  destruct (JsString.stripTrailingZeros r) as [|c' r'] eqn:Hr.
  - simpl in IH. symmetry in IH. apply (f_equal (@List.rev ascii)) in IH.
    rewrite List.rev_involutive in IH. simpl in IH. rewrite IH.
    destruct (Ascii.eqb c "0"); reflexivity.
  - destruct (Spec.dropLeadingZeros (List.rev (list_ascii_of_string r)))
      as [|d l'] eqn:Hd.
    + discriminate IH.
    + rewrite List.rev_app_distr, <- IH. reflexivity.
Qed.

(** The [replace] of the source strips exactly the trailing zeros. *)
Lemma stripTrailingZeros_spec (s : string) :
  JsString.stripTrailingZeros s = Spec.stripZerosRight s.
Proof.
  unfold Spec.stripZerosRight. rewrite <- stripTrailingZeros_list.
  now rewrite string_of_list_ascii_of_string.
Qed.

(** ** Digits of a number and the value of digits *)

Lemma digitOf_digitChar (d : Z) :
  0 <= d < 10 -> Decimal.digitOf (JsString.digitChar d) = Some d.
Proof.
  intros Hd.
  assert (d = 0 \/ d = 1 \/ d = 2 \/ d = 3 \/ d = 4 \/
          d = 5 \/ d = 6 \/ d = 7 \/ d = 8 \/ d = 9) as Hcases by lia.
  repeat (destruct Hcases as [-> | Hcases]; [reflexivity|]).
  subst d. reflexivity.
Qed.

Lemma digitOf_range (c : ascii) (d : Z) :
  Decimal.digitOf c = Some d -> 0 <= d < 10.
Proof.
  unfold Decimal.digitOf.
  destruct (Z.leb_spec 48 (Z.of_N (N_of_ascii c)));
    destruct (Z.leb_spec (Z.of_N (N_of_ascii c)) 57); simpl;
    intros Heq; inversion Heq; lia.
Qed.

Lemma digitOf_zero (c : ascii) :
  Ascii.eqb c "0" = true -> Decimal.digitOf c = Some 0.
Proof. intros Hc. apply Ascii.eqb_eq in Hc. subst c. reflexivity. Qed.

Lemma digitsFrom_app (fuel : nat) (radix n : Z) (acc : string) :
  JsString.digitsFrom fuel radix n acc =
  JsString.digitsFrom fuel radix n "" +:+ acc.
Proof.
  revert n acc. induction fuel as [|fuel IH]; intros n acc; [reflexivity|].
  cbn [JsString.digitsFrom].
  destruct (n / radix =? 0); [reflexivity|].
  rewrite IH, (IH _ (String _ "")), string_app_assoc. reflexivity.
Qed.

Lemma digitsFrom_nonempty (fuel : nat) (radix n : Z) :
  JsString.digitsFrom (S fuel) radix n "" <> "".
Proof.
  cbn [JsString.digitsFrom].
  destruct (n / radix =? 0); [discriminate|].
  rewrite digitsFrom_app. destruct (JsString.digitsFrom fuel radix _ "");
    discriminate.
Qed.

(** Reading the digits of [n] from nothing leaves the value [n]. *)
Lemma digitsFrom_value (fuel : nat) (n : Z) (rest : string) :
  0 <= n < 2 ^ Z.of_nat fuel ->
  Decimal.digitsValue (JsString.digitsFrom fuel 10 n rest) 0 =
  Decimal.digitsValue rest n.
Proof.
  revert n rest. induction fuel as [|fuel IH]; intros n rest Hn.
  - simpl in *. replace n with 0 by lia. reflexivity.
  - rewrite Nat2Z.inj_succ, Z.pow_succ_r in Hn by lia.
    cbn [JsString.digitsFrom].
    destruct (Z.eqb_spec (n / 10) 0) as [Hq | Hq].
    + cbn [Decimal.digitsValue].
      rewrite digitOf_digitChar by (apply Z.mod_pos_bound; lia).
      f_equal. rewrite (Z.div_mod n 10) at 2 by lia. lia.
    + rewrite IH by (split; [apply Z.div_pos; lia | apply Z.div_lt_upper_bound; lia]).
      cbn [Decimal.digitsValue].
      rewrite digitOf_digitChar by (apply Z.mod_pos_bound; lia).
      f_equal. rewrite (Z.div_mod n 10) at 3 by lia. lia.
Qed.

Lemma digitFuel_enough (n : Z) : 0 <= n -> 0 <= n < 2 ^ Z.of_nat (JsString.digitFuel n).
Proof.
  intros Hn. unfold JsString.digitFuel.
  rewrite Nat2Z.inj_succ, Z2Nat.id by apply Z.log2_nonneg.
  destruct (Z.eq_dec n 0) as [-> | Hne]; [simpl; lia|].
  pose proof (Z.log2_spec n ltac:(lia)). lia.
Qed.

Lemma toString_nonneg (n : Z) :
  0 <= n -> JsString.toString n = JsString.natToString 10 n.
Proof.
  intros Hn. unfold JsString.toString, JsString.toStringRadix.
  destruct (Z.ltb_spec n 0); [lia | reflexivity].
Qed.

Lemma toString_nonempty (n : Z) : 0 <= n -> JsString.toString n <> "".
Proof.
  intros Hn. rewrite toString_nonneg by assumption.
  apply digitsFrom_nonempty.
Qed.

(** Reading [n.toString()] followed by [rest] is reading [rest] from [n]. *)
Lemma toString_value (n : Z) (rest : string) :
  0 <= n ->
  Decimal.digitsValue (JsString.toString n +:+ rest) 0 =
  Decimal.digitsValue rest n.
Proof.
  intros Hn. rewrite toString_nonneg by assumption.
  unfold JsString.natToString. rewrite <- digitsFrom_app.
  apply digitsFrom_value, digitFuel_enough, Hn.
Qed.

Lemma numeral_toString (n : Z) :
  0 <= n -> Decimal.numeral (JsString.toString n) = Some n.
Proof.
  intros Hn. unfold Decimal.numeral.
  pose proof (toString_nonempty n Hn) as Hne.
  destruct (JsString.toString n) eqn:Hs; [contradiction|].
  rewrite <- Hs, <- (string_app_empty_r (JsString.toString n)).
  now rewrite toString_value.
Qed.

(** A positive number below [10 ^ k] prints in at most [k] digits. *)
Lemma digitsFrom_length (fuel k : nat) (n : Z) (acc : string) :
  0 <= n < 10 ^ Z.of_nat (S k) ->
  (String.length (JsString.digitsFrom fuel 10 n acc) <= S k + String.length acc)%nat.
Proof.
  revert k n acc. induction fuel as [|fuel IH]; intros k n acc Hn.
  - simpl. lia.
  - cbn [JsString.digitsFrom].
    rewrite Nat2Z.inj_succ, Z.pow_succ_r in Hn by lia.
    destruct (Z.eqb_spec (n / 10) 0) as [Hq | Hq].
    + simpl. lia.
    + assert (0 <= n / 10 < 10 ^ Z.of_nat k) as Hq'
        by (split; [apply Z.div_pos; lia | apply Z.div_lt_upper_bound; lia]).
      destruct k as [|k].
      { change (10 ^ Z.of_nat 0) with 1 in Hq'. lia. }
      etransitivity; [apply (IH k); exact Hq'|]. simpl. lia.
Qed.

Lemma toString_length (n p : Z) :
  0 < n < 10 ^ p -> 0 <= p -> JsString.len (JsString.toString n) <= p.
Proof.
  intros Hn Hp. rewrite toString_nonneg by lia.
  unfold JsString.len, JsString.natToString.
  destruct (Z.to_nat p) as [|k] eqn:Hk.
  - replace p with 0 in Hn by lia. simpl in Hn. lia.
  - pose proof (digitsFrom_length (JsString.digitFuel n) k n "") as Hlen.
    rewrite <- Hk, Z2Nat.id in Hlen by lia.
    specialize (Hlen ltac:(lia)). change (String.length "") with O in Hlen. lia.
Qed.

Lemma digitsValue_app (s t : string) (acc : Z) :
  Decimal.digitsValue (s +:+ t) acc =
  match Decimal.digitsValue s acc with
  | Some v => Decimal.digitsValue t v
  | None => None
  end.
Proof.
  revert acc. induction s as [|c r IH]; intros acc; simpl; [reflexivity|].
  destruct (Decimal.digitOf c); [apply IH | reflexivity].
Qed.

Lemma digitsValue_zeros (k : nat) (s : string) :
  Decimal.digitsValue (Spec.zeros k +:+ s) 0 = Decimal.digitsValue s 0.
Proof. induction k as [|k IH]; simpl; [reflexivity | exact IH]. Qed.

(** A string of digits holds no point: it splits into itself. *)
Lemma splitPoint_digits (w : string) (acc v : Z) :
  Decimal.digitsValue w acc = Some v ->
  Decimal.splitPoint w = (w, None) /\
  forall f, Decimal.splitPoint (w +:+ String "." f) = (w, Some f).
Proof.
  revert acc. induction w as [|c r IH]; intros acc Hv.
  - split; reflexivity.
  - simpl in Hv. destruct (Decimal.digitOf c) as [d|] eqn:Hd; [|discriminate].
    destruct (IH _ Hv) as [IH1 IH2].
    assert (Ascii.eqb c "." = false) as Hc.
    { destruct (Ascii.eqb_spec c ".") as [-> | _]; [discriminate Hd | reflexivity]. }
    split; [|intros f]; simpl; rewrite Hc; [rewrite IH1 | rewrite IH2]; reflexivity.
Qed.

(** Stripping [k] trailing zeros divides the value by [10 ^ k]. *)
Lemma stripTrailingZeros_value (s : string) (acc x : Z) :
  Decimal.digitsValue s acc = Some x ->
  exists y,
    Decimal.digitsValue (JsString.stripTrailingZeros s) acc = Some y /\
    JsString.len (JsString.stripTrailingZeros s) <= JsString.len s /\
    x = y * 10 ^ (JsString.len s - JsString.len (JsString.stripTrailingZeros s)).
Proof.
  unfold JsString.len.
  revert acc. induction s as [|c r IH]; intros acc Hx.
  - exists x. cbn in *. split; [assumption | split; lia].
  - cbn [Decimal.digitsValue] in Hx.
    destruct (Decimal.digitOf c) as [d|] eqn:Hd; [|discriminate].
    destruct (IH _ Hx) as (y & Hy & Hlen & Hxy).
    cbn [JsString.stripTrailingZeros].
    destruct (JsString.stripTrailingZeros r) as [|c' r'] eqn:Hr.
    + destruct (Ascii.eqb c "0") eqn:Hc.
      * rewrite (digitOf_zero _ Hc) in Hd. injection Hd as <-.
        exists acc. cbn [Decimal.digitsValue String.length] in *.
        injection Hy as <-.
        split; [reflexivity | split; [lia|]].
        rewrite Hxy, Nat2Z.inj_succ, !Z.sub_0_r, Z.pow_succ_r by lia. lia.
      * exists y. cbn [Decimal.digitsValue String.length] in *. rewrite Hd.
        split; [exact Hy | split; [lia|]].
        rewrite Hxy. f_equal. f_equal. lia.
    + exists y. cbn [Decimal.digitsValue String.length] in *. rewrite Hd.
      split; [exact Hy | split; [lia|]].
      rewrite Hxy. f_equal. f_equal. lia.
Qed.

(** ** The arithmetic of the formatter *)

(** On a non-negative amount the truncating operators of the source are
    the floor operators of the specification. *)
Lemma roundCoins_spec_round (a p : Z) :
  0 <= a -> 0 <= p <= 9 -> roundCoins a p = Spec.round a p.
Proof.
  intros Ha Hp. unfold roundCoins, Spec.round.
  rewrite decimal_spec, pow10_spec by (unfold decimalCount; lia).
  unfold decimalCount.
  assert (0 < 10 ^ (9 - p)) as Hu by (apply Z.pow_pos_nonneg; lia).
  set (u := 10 ^ (9 - p)) in *.
  change (10 ^ 9) with 1000000000.
  rewrite (Z.quot_div_nonneg a 1000000000), (Z.rem_mod_nonneg a 1000000000) by lia.
  pose proof (Z.mod_pos_bound a 1000000000 ltac:(lia)) as Hf.
  set (frac := a mod 1000000000) in *.
  rewrite Z.rem_mod_nonneg by lia.
  rewrite Z.gtb_ltb.
  destruct (Z.ltb_spec 0 (frac mod u)) as [Hr | Hr]; cbn [andb].
  - rewrite Z.geb_leb.
    destruct (Z.leb_spec 1000000000 (frac + u)) as [Hc | Hc];
      rewrite Z.quot_div_nonneg by lia; reflexivity.
  - rewrite Z.quot_div_nonneg by lia. reflexivity.
Qed.

(** What the rounding yields: a whole part and a numerator below
    [10 ^ p] that together make the amount raised to the display grid. *)
Lemma spec_round_value (a p w f : Z) :
  0 <= a -> 0 <= p <= 9 -> Spec.round a p = (w, f) ->
  0 <= w /\ 0 <= f < 10 ^ p /\
  w * 10 ^ 9 + f * 10 ^ (9 - p) = Decimal.raiseToGrid a p.
Proof.
  intros Ha Hp. unfold Spec.round, Decimal.raiseToGrid.
  each_precision p Hp;
    match goal with
    | |- context [10 ^ (9 - ?k)] =>
        let v := eval vm_compute in (10 ^ (9 - k)) in
        change (10 ^ (9 - k)) with v
    end;
    change (10 ^ 9) with 1000000000;
    (match goal with
     | |- context [0 <? ?x] => destruct (Z.ltb_spec 0 x) as [Hr | Hr]
     end; cbn [andb];
     [ match goal with
       | |- context [?x <=? ?y] => destruct (Z.leb_spec x y) as [Hc | Hc]
       end |]);
    intros Heq; injection Heq as <- <-;
    Z.div_mod_to_equations; lia.
Qed.

(** ** What the printed string denotes *)

Lemma digitsValue_toString (n : Z) :
  0 <= n -> Decimal.digitsValue (JsString.toString n) 0 = Some n.
Proof.
  intros Hn. rewrite <- (string_app_empty_r (JsString.toString n)).
  now rewrite toString_value.
Qed.

(** The fraction digits the formatter prints for a numerator [f]: at most
    [p] of them, not none, worth [f] once scaled back to [p] digits. *)
Lemma fractionDigits_value (f p : Z) :
  0 < f < 10 ^ p -> 0 <= p ->
  exists y,
    Decimal.numeral
      (JsString.stripTrailingZeros
         (JsString.padStart (JsString.toString f) p "0")) = Some y /\
    JsString.len
      (JsString.stripTrailingZeros
         (JsString.padStart (JsString.toString f) p "0")) <= p /\
    f = y * 10 ^ (p - JsString.len
                        (JsString.stripTrailingZeros
                           (JsString.padStart (JsString.toString f) p "0"))).
Proof.
  intros Hf Hp.
  pose proof (toString_length f p Hf Hp) as Hlen.
  rewrite padStart_zero.
  pose proof (padLeftZeros_length _ _ Hlen) as Hpad.
  assert (Decimal.digitsValue (Spec.padLeftZeros p (JsString.toString f)) 0 = Some f)
    as Hval.
  { unfold Spec.padLeftZeros. rewrite digitsValue_zeros.
    apply digitsValue_toString. lia. }
  destruct (stripTrailingZeros_value _ _ _ Hval) as (y & Hy & Hle & Hfy).
  rewrite Hpad in Hle, Hfy.
  exists y. split; [|split; assumption].
  unfold Decimal.numeral.
  destruct (JsString.stripTrailingZeros _) as [|c r] eqn:Hs; [|exact Hy].
  cbn in Hy. injection Hy as <-. lia.
Qed.

(** The string rendered from a whole part and a numerator below [10 ^ p]
    denotes their sum on the scale of subunits. *)
Lemma renderCoins_value (w f p : Z) :
  0 <= w -> 0 <= f < 10 ^ p -> 0 <= p <= 9 ->
  Decimal.subunitsOf (renderCoins w f p) = Some (w * 10 ^ 9 + f * 10 ^ (9 - p)).
Proof.
  intros Hw Hf Hp. unfold renderCoins, Decimal.subunitsOf.
  pose proof (digitsValue_toString w Hw) as Hwv.
  destruct (splitPoint_digits _ _ _ Hwv) as [Hsplit0 Hsplit1].
  destruct (Z.eqb_spec f 0) as [-> | Hne]; cbn [negb].
  - rewrite string_app_empty_r, Hsplit0, numeral_toString by assumption.
    f_equal. lia.
  - change ("." +:+ ?x) with (String "."%char x).
    rewrite Hsplit1, numeral_toString by assumption.
    destruct (fractionDigits_value f p ltac:(lia) ltac:(lia)) as (y & Hy & Hle & Hfy).
    rewrite Hy.
    set (F := JsString.stripTrailingZeros _) in *.
    assert (0 <= JsString.len F) as HF by (unfold JsString.len; lia).
    destruct (Z.leb_spec (JsString.len F) 9) as [_ | Hgt]; [|lia].
    f_equal. f_equal. rewrite Hfy, <- Z.mul_assoc, <- Z.pow_add_r by lia.
    f_equal. f_equal. lia.
Qed.

(** The formatter prints the amount raised to the display grid. *)
Lemma formatCoinsPure_value (a p : Z) :
  0 <= a -> 0 <= p <= 9 ->
  Decimal.subunitsOf (formatCoinsPure a p) = Some (Decimal.raiseToGrid a p).
Proof.
  intros Ha Hp. unfold formatCoinsPure.
  rewrite roundCoins_spec_round by assumption.
  destruct (Spec.round a p) as [w f] eqn:Hr.
  destruct (spec_round_value _ _ _ _ Ha Hp Hr) as (Hw & Hf & Hsum).
  rewrite renderCoins_value by assumption. now rewrite Hsum.
Qed.

Lemma raiseToGrid_mono (a b p : Z) :
  0 <= p <= 9 -> a <= b -> Decimal.raiseToGrid a p <= Decimal.raiseToGrid b p.
Proof.
  intros Hp Hab. unfold Decimal.raiseToGrid.
  assert (0 < 10 ^ (9 - p)) as Hu by (apply Z.pow_pos_nonneg; lia).
  apply Z.mul_le_mono_nonneg_r; [lia|].
  apply Z.div_le_mono; lia.
Qed.

Lemma raiseToGrid_near (a p : Z) :
  0 <= p <= 9 ->
  0 <= Decimal.raiseToGrid a p - Decimal.truncateToGrid a p <= 10 ^ (9 - p).
Proof.
  intros Hp. unfold Decimal.raiseToGrid, Decimal.truncateToGrid.
  assert (0 < 10 ^ (9 - p)) as Hu by (apply Z.pow_pos_nonneg; lia).
  set (u := 10 ^ (9 - p)) in *.
  assert (a / u <= (a + u - 1) / u <= a / u + 1) as Hq.
  { split.
    - apply Z.div_le_mono; lia.
    - replace (a / u + 1) with ((a + 1 * u) / u) by (rewrite Z.div_add; lia).
      apply Z.div_le_mono; lia. }
  nia.
Qed.

(** ** The formatter: claims *)

(** C1. For every non-negative amount [a] and precision [p] in [0,9],
    [formatCoins] follows the algorithm of the specification: split into
    [whole = a div 10^9] and [frac = a mod 10^9]; with [unit = 10^(9-p)], a
    non-zero [frac mod unit] adds [unit] to [frac], and a [frac] that then
    reaches [10^9] loses [10^9] while [whole] gains 1; [frac div unit] is the
    numerator; the result is [whole], followed only for a non-zero numerator
    by a point and the numerator padded with zeros to [p] digits and stripped
    of trailing zeros. In particular the amount 123456789 at the default
    precision 6 prints as "0.123457". *)
Theorem formatCoins_follows_algorithm (a p : Z) :
  0 <= a -> 0 <= p <= 9 ->
  formatCoins (Coins a) p = Spec.format a p /\
  formatCoins (Coins 123456789) defaultPrecision = "0.123457".
Proof.
  intros Ha Hp. split; [|vm_compute; reflexivity].
  cbn [formatCoins]. unfold formatCoinsPure, Spec.format.
  rewrite roundCoins_spec_round by assumption.
  destruct (Spec.round a p) as [w f]. unfold renderCoins.
  rewrite padStart_zero, stripTrailingZeros_spec.
  destruct (f =? 0); reflexivity.
Qed.

Lemma formatCoins_follows_algorithm_witness :
  formatCoins (Coins 123456789) 6 = Spec.format 123456789 6 /\
  formatCoins (Coins 123456789) defaultPrecision = "0.123457".
Proof. apply (formatCoins_follows_algorithm 123456789 6); lia. Defined.

(** C2. For every non-negative amount [a] and precision [p] in [0,9], the
    string [formatCoins] returns denotes a decimal value which, in subunits,
    is at most one unit of [10^(9-p)] away from [a] truncated to the grid of
    [10^(9-p)]. *)
Theorem formatCoins_within_one_unit (a p : Z) :
  0 <= a -> 0 <= p <= 9 ->
  exists v,
    Decimal.subunitsOf (formatCoins (Coins a) p) = Some v /\
    Z.abs (v - Decimal.truncateToGrid a p) <= 10 ^ (9 - p).
Proof.
  intros Ha Hp. exists (Decimal.raiseToGrid a p). split.
  - apply formatCoinsPure_value; assumption.
  - pose proof (raiseToGrid_near a p Hp). lia.
Qed.

Lemma formatCoins_within_one_unit_witness :
  exists v,
    Decimal.subunitsOf (formatCoins (Coins 123456789) 6) = Some v /\
    Z.abs (v - Decimal.truncateToGrid 123456789 6) <= 10 ^ (9 - 6).
Proof. apply (formatCoins_within_one_unit 123456789 6); lia. Defined.

(** C3. For every precision [p] in [0,9] the formatter is monotonic in the
    amount: for non-negative amounts [a <= b], the value denoted by the
    string printed for [a] is at most the value denoted by the string
    printed for [b]. *)
Theorem formatCoins_monotonic (p a b : Z) :
  0 <= p <= 9 -> 0 <= a -> a <= b ->
  exists va vb,
    Decimal.subunitsOf (formatCoins (Coins a) p) = Some va /\
    Decimal.subunitsOf (formatCoins (Coins b) p) = Some vb /\
    va <= vb.
Proof.
  intros Hp Ha Hab.
  exists (Decimal.raiseToGrid a p), (Decimal.raiseToGrid b p).
  split; [|split].
  - apply formatCoinsPure_value; assumption.
  - apply formatCoinsPure_value; [lia | assumption].
  - apply raiseToGrid_mono; assumption.
Qed.

Lemma formatCoins_monotonic_witness :
  exists va vb,
    Decimal.subunitsOf (formatCoins (Coins 999999) 6) = Some va /\
    Decimal.subunitsOf (formatCoins (Coins 1000001) 6) = Some vb /\
    va <= vb.
Proof. apply (formatCoins_monotonic 6 999999 1000001); lia. Defined.

(** C4. The amount 999999999, one subunit short of a unit, prints as "1" at
    precision 6: its residue below the display grid is not zero, so the
    fraction is raised, and the raise carries into the whole part, leaving
    the numerator zero. *)
Theorem formatCoins_carry_into_whole :
  formatCoins (Coins 999999999) 6 = "1" /\
  Z.rem (Z.rem 999999999 decimal) (pow10 (decimalCount - 6)) = 999 /\
  roundCoins 999999999 6 = (1, 0).
Proof. repeat split; vm_compute; reflexivity. Qed.

(** C5. For every precision [p], [formatCoins] of an absent amount,
    [undefined] or [null], returns the one sentinel string, whatever [p]
    is; the amount is never handed to the arithmetic of
    [formatCoinsPure]. *)
Theorem formatCoins_absent (p : Z) :
  formatCoins CoinsUndefined p = infinitySentinel /\
  formatCoins CoinsNull p = infinitySentinel.
Proof. split; reflexivity. Qed.

(** ** Shortened addresses *)

Lemma substring_sliceFirst (n : nat) (s : string) :
  JsString.sliceFirst n s = String.substring 0 n s.
Proof.
  revert s. induction n as [|n IH]; intros [|c r]; simpl; try reflexivity.
  now rewrite IH.
Qed.

Lemma substring_whole (s : string) : String.substring 0 (String.length s) s = s.
Proof. induction s as [|c r IH]; simpl; [reflexivity | now rewrite IH]. Qed.

Lemma substring_dropFirst (k : nat) (s : string) :
  JsString.dropFirst k s = String.substring k (String.length s - k) s.
Proof.
  revert s. induction k as [|k IH]; intros s.
  - rewrite Nat.sub_0_r, substring_whole. destruct s; reflexivity.
  - destruct s as [|c r]; [reflexivity|]. simpl. apply IH.
Qed.

(** [shortenString] keeps a short string and abbreviates a long one to its
    first and last four characters around an ellipsis. *)
Lemma shortenString_spec (s : string) : shortenString s = Spec.shortened s.
Proof.
  unfold shortenString, Spec.shortened, JsString.len, JsString.sliceLast.
  destruct (Z.leb_spec (Z.of_nat (String.length s)) 8) as [Hle | Hgt];
    destruct (Nat.leb_spec (String.length s) 8) as [Hle' | Hgt']; try lia.
  - reflexivity.
  - rewrite substring_sliceFirst, substring_dropFirst.
    replace (String.length s - (String.length s - 4))%nat with 4%nat by lia.
    reflexivity.
Qed.

(** ** The logger: claims *)

Section LoggerFacts.

Context {Address : Type} (addressToString : Address -> string).

Implicit Types (contractLabels : gmap string string).
Implicit Types (tx : Transaction (Address := Address)).

Lemma isGeneric_true tx :
  isGeneric tx = true <->
  exists computePhase actionPhase, description tx = DescGeneric computePhase actionPhase.
Proof.
  unfold isGeneric. destruct (description tx); simpl; split;
    try discriminate; try (intros (? & ? & ?); discriminate); eauto.
Qed.

Lemma formatTransaction_gate contractLabels tx :
  match formatTransaction addressToString contractLabels tx with
  | Some _ => isGeneric tx = true
  | None => isGeneric tx = false
  end.
Proof.
  unfold formatTransaction, isGeneric. destruct (description tx); reflexivity.
Qed.

(** Keeping the defined results is keeping the generic transactions. *)
Lemma filter_formatted contractLabels (txs : list Transaction) :
  List.filter (fun r : option JsObject => match r with Some _ => true | None => false end)
    (List.map (formatTransaction addressToString contractLabels) txs) =
  List.map (formatTransaction addressToString contractLabels)
    (List.filter isGeneric txs).
Proof.
  induction txs as [|tx txs IH]; [reflexivity|].
  cbn [List.map List.filter].
  pose proof (formatTransaction_gate contractLabels tx) as Hgate.
  destruct (formatTransaction addressToString contractLabels tx) eqn:Hf;
    rewrite Hgate; cbn [List.map]; rewrite ?Hf, IH; reflexivity.
Qed.

(** The amounts formatted for the internal messages, one by one. *)
Lemma outgoing_internalCoins (msgs : list (Message (Address := Address))) :
  List.map
    (fun msg =>
       formatCoins
         (match info msg with
          | InfoInternal _ _ coins => Coins coins
          | _ => CoinsUndefined
          end)
         defaultPrecision)
    (List.filter (fun msg => String.eqb (infoType (info msg)) "internal") msgs) =
  List.map (fun coins => formatCoins (Coins coins) defaultPrecision)
    (internalCoins msgs).
Proof.
  induction msgs as [|msg msgs IH]; [reflexivity|].
  cbn [List.filter internalCoins].
  destruct (info msg) eqn:Hinfo; cbn [infoType]; simpl; rewrite ?Hinfo, ?IH;
    reflexivity.
Qed.

Lemma internalCoins_none (msgs : list (Message (Address := Address))) :
  (forall msg, In msg msgs -> infoType (info msg) <> "internal") ->
  internalCoins msgs = [].
Proof.
  induction msgs as [|msg msgs IH]; intros Hall; [reflexivity|].
  cbn [internalCoins].
  pose proof (Hall msg (or_introl eq_refl)) as Hmsg.
  destruct (info msg); try (apply IH; intros m Hm; apply Hall; right; exact Hm).
  now contradiction Hmsg.
Qed.

(** Reads a property of an object literal whose keys are literals. *)
Ltac read_property :=
  unfold getProperty, hasProperty, existsb;
  repeat match goal with
         | |- context [String.eqb ?k1 ?k2] =>
             let b := eval vm_compute in (String.eqb k1 k2) in
             change (String.eqb k1 k2) with b
         end;
  cbv beta iota; cbn [fst snd orb].

(** C6. For every summarized transaction: without outbound messages the
    [Outgoing Value] field is the sentinel string; with one or more it is the
    list, in the order of the outbound messages, of the formatted amounts of
    exactly the internal ones. Outbound messages none of which is internal
    therefore give the empty list, which differs from the sentinel. *)
Theorem outgoing_value_field contractLabels tx (row : JsObject) :
  formatTransaction addressToString contractLabels tx = Some row ->
  (outMessages tx = [] ->
   getProperty "Outgoing Value" row = JsStr "No coins!") /\
  (outMessages tx <> [] ->
   getProperty "Outgoing Value" row =
   JsArr (List.map (fun coins => formatCoins (Coins coins) defaultPrecision)
            (internalCoins (outMessages tx)))) /\
  (outMessages tx <> [] ->
   (forall msg, In msg (outMessages tx) -> infoType (info msg) <> "internal") ->
   getProperty "Outgoing Value" row = JsArr []) /\
  JsArr [] <> JsStr "No coins!".
Proof.
  intros Hrow.
  assert (getProperty "Outgoing Value" row = outgoingValueField tx) as Hfield.
  { unfold formatTransaction in Hrow.
    destruct (description tx); try discriminate.
    injection Hrow as <-. read_property. reflexivity. }
  rewrite Hfield. unfold outgoingValueField.
  rewrite outgoing_internalCoins.
  repeat split.
  - intros ->. reflexivity.
  - intros Hne. destruct (outMessages tx); [contradiction | reflexivity].
  - intros Hne Hall. rewrite internalCoins_none by assumption.
    destruct (outMessages tx); [contradiction | reflexivity].
  - discriminate.
Qed.

(** C7. A transaction whose description is not of type "generic" is not
    summarized: [formatTransaction] returns [undefined]. For every batch, the
    table [logTransactions] prints holds exactly the rows of the generic
    transactions, in their order, and no [undefined]. *)
Theorem nongeneric_excluded contractLabels (txs : list Transaction)
    (note : option string) tx :
  (descriptionType (description tx) <> "generic" ->
   formatTransaction addressToString contractLabels tx = None) /\
  exists before,
    logTransactions addressToString contractLabels txs note =
    before ++
    [ConsoleTable
       (List.map (formatTransaction addressToString contractLabels)
          (List.filter isGeneric txs))] /\
    (forall call, In call before -> exists text, call = ConsoleInfo text) /\
    (forall r,
       In r (List.map (formatTransaction addressToString contractLabels)
               (List.filter isGeneric txs)) ->
       r <> None).
Proof.
  split.
  - intros Hne. unfold formatTransaction.
    destruct (description tx); try reflexivity. now contradiction Hne.
  - unfold logTransactions. rewrite filter_formatted.
    eexists. split; [reflexivity | split].
    + intros call Hin. destruct note as [[|c r]|]; simpl in Hin;
        try contradiction. destruct Hin as [<- | []]. eauto.
    + intros r Hin Hr. subst r. apply List.in_map_iff in Hin.
      destruct Hin as (t & Ht & Hin). apply List.filter_In in Hin.
      destruct Hin as [_ Hgen].
      pose proof (formatTransaction_gate contractLabels t) as Hgate.
      rewrite Ht in Hgate. congruence.
Qed.

(** C8. When the address key already has a label, [addContract] for that
    key throws and leaves the map of labels as it was: the first label stays
    with the key. *)
Theorem addContract_duplicate (contract : ContractRef (Address := Address))
    (label first : string) contractLabels :
  contractLabels !! getAddressString addressToString contract = Some first ->
  exists message,
    addContract addressToString contract label contractLabels =
    (inl (MkError message), contractLabels) /\
    snd (addContract addressToString contract label contractLabels)
      !! getAddressString addressToString contract = Some first.
Proof.
  intros Hfirst. unfold addContract. rewrite Hfirst.
  eexists. split; [reflexivity | exact Hfirst].
Qed.

(** A first registration succeeds and stores the label. *)
Lemma addContract_fresh (contract : ContractRef (Address := Address))
    (label : string) contractLabels :
  contractLabels !! getAddressString addressToString contract = None ->
  addContract addressToString contract label contractLabels =
  (inr tt, <[getAddressString addressToString contract := label]> contractLabels) /\
  snd (addContract addressToString contract label contractLabels)
    !! getAddressString addressToString contract = Some label.
Proof.
  intros Hnone. unfold addContract. rewrite Hnone.
  split; [reflexivity | apply lookup_insert_eq].
Qed.

(** X26. The fields of a row other than [Type] always hold a defined value. *)
Lemma formatTransaction_defined_fields contractLabels tx (row : JsObject) :
  formatTransaction addressToString contractLabels tx = Some row ->
  List.map fst row =
  ["Source"; "Destination"; "Type"; "Opcode"; "Incoming Value";
   "Outgoing Value"; "Total Fees"; "Outgoing Actions Count"; "Exit Code"] /\
  forall key, In key (List.map fst row) -> key <> "Type" ->
              isDefined (getProperty key row) = true.
Proof.
  unfold formatTransaction.
  destruct (description tx) as [computePhase actionPhase| | | | | |];
    try discriminate.
  intros Hrow. injection Hrow as <-. split; [reflexivity|].
  intros key Hin Hkey. cbn [List.map fst] in Hin.
  repeat (destruct Hin as [<- | Hin]; [try contradiction; read_property|]);
    try contradiction.
  - reflexivity.
  - reflexivity.
  - unfold opcodeField. repeat case_match; reflexivity.
  - reflexivity.
  - unfold outgoingValueField. case_match; reflexivity.
  - reflexivity.
  - destruct actionPhase; reflexivity.
  - destruct computePhase; reflexivity.
Qed.

(** With an inbound message the [Type] field is its kind tag. *)
Lemma formatTransaction_type_of_message contractLabels tx (row : JsObject)
    (m : Message) :
  formatTransaction addressToString contractLabels tx = Some row ->
  inMessage tx = Some m ->
  getProperty "Type" row = JsStr (infoType (info m)).
Proof.
  unfold formatTransaction. destruct (description tx); try discriminate.
  intros Hrow Hm. injection Hrow as <-. read_property. now rewrite Hm.
Qed.

(** C10. [getContractLabel] takes an empty label for no label: it returns
    the registered label only when that label is not the empty string, and
    otherwise the shortened address: the address string itself up to 8
    characters, else its first 4 characters, "..." and its last 4. *)
Theorem getContractLabel_resolution contractLabels (address : Address) :
  getContractLabel addressToString contractLabels address =
  match contractLabels !! addressToString address with
  | Some label =>
      if decide (label = "") then Spec.shortened (addressToString address)
      else label
  | None => Spec.shortened (addressToString address)
  end.
Proof.
  unfold getContractLabel. rewrite shortenString_spec.
  destruct (contractLabels !! addressToString address) as [[|c r]|];
    reflexivity.
Qed.

End LoggerFacts.

Lemma outgoing_value_field_witness :
  exists row,
    formatTransaction Sample.addressText ∅ Sample.transfer = Some row /\
    outMessages Sample.transfer <> [] /\
    getProperty "Outgoing Value" row = JsArr ["1.5"].
Proof.
  eexists. split; [vm_compute; reflexivity|]. split; [discriminate|].
  refine (proj1 (proj2 (outgoing_value_field Sample.addressText ∅
                          Sample.transfer _ _)) _).
  - vm_compute. reflexivity.
  - discriminate.
Defined.

Lemma nongeneric_excluded_witness :
  formatTransaction Sample.addressText ∅ Sample.storage = None /\
  exists before,
    logTransactions Sample.addressText ∅
      [Sample.bare; Sample.storage; Sample.transfer] None =
    before ++
    [ConsoleTable
       (List.map (formatTransaction Sample.addressText ∅)
          [Sample.bare; Sample.transfer])].
Proof.
  destruct (nongeneric_excluded Sample.addressText ∅
              [Sample.bare; Sample.storage; Sample.transfer] None
              Sample.storage) as [Hgate (before & Hlog & _)].
  split.
  - apply Hgate. discriminate.
  - exists before. exact Hlog.
Defined.

Lemma addContract_duplicate_witness :
  exists message,
    addContract Sample.addressText (RefString "EQabc") "Other"
      (<["EQabc" := "Counter"]> ∅) =
    (inl (MkError message), <["EQabc" := "Counter"]> ∅) /\
    snd (addContract Sample.addressText (RefString "EQabc") "Other"
           (<["EQabc" := "Counter"]> ∅))
      !! getAddressString Sample.addressText (RefString "EQabc") =
    Some "Counter".
Proof.
  apply (addContract_duplicate Sample.addressText (RefString "EQabc")
           "Other" "Counter").
  vm_compute. reflexivity.
Defined.

(** C9. For a transaction without inbound message the code leaves the
    [Type] field without a defined value: the property is there and holds
    [undefined], where every other absent value is replaced by a sentinel
    string. *)
Theorem formatTransaction_type_undefined :
  formatTransaction Sample.addressText ∅ Sample.bare =
  Some
    [("Source", JsStr "Shrek"); ("Destination", JsStr "Donkey");
     ("Type", JsUndefined); ("Opcode", JsStr "0gR33n0gr");
     ("Incoming Value", JsStr infinitySentinel);
     ("Outgoing Value", JsStr "No coins!"); ("Total Fees", JsStr "0");
     ("Outgoing Actions Count", JsStr "No actions here?");
     ("Exit Code", JsStr "Ogres have layers?")] /\
  option_map (hasProperty "Type")
    (formatTransaction Sample.addressText ∅ Sample.bare) = Some true /\
  option_map (fun row => isDefined (getProperty "Type" row))
    (formatTransaction Sample.addressText ∅ Sample.bare) = Some false.
Proof. repeat split; vm_compute; reflexivity. Qed.

(** * Further properties of the code *)

(** ** The formatter *)

Lemma pow10_pos (n : Z) : 0 < pow10 n.
Proof.
  destruct (Z.le_gt_cases 0 n) as [Hn | Hn].
  - rewrite pow10_spec by assumption. apply Z.pow_pos_nonneg; lia.
  - rewrite pow10_nonpos by lia. lia.
Qed.

(** X1. The loop of [pow10] computes the power of ten of a non-negative
    exponent and does not run for a negative one, which gives 1. *)
Theorem pow10_closed_form (n : Z) : pow10 n = 10 ^ Z.max 0 n.
Proof.
  destruct (Z.le_gt_cases 0 n) as [Hn | Hn].
  - rewrite Z.max_r by assumption. apply pow10_spec, Hn.
  - rewrite Z.max_l, pow10_nonpos by lia. reflexivity.
Qed.

(** X2. The amount zero prints as "0", without a point, at every
    precision, in range or not. *)
Theorem formatCoinsPure_zero (p : Z) : formatCoinsPure 0 p = "0".
Proof.
  unfold formatCoinsPure, roundCoins.
  change (Z.quot 0 decimal) with 0. change (Z.rem 0 decimal) with 0.
  change (Z.rem 0 ?u) with 0. cbn [Z.gtb Z.compare].
  change (Z.quot 0 ?u) with 0. reflexivity.
Qed.

Lemma raiseToGrid_bounds (a p : Z) :
  0 <= p <= 9 ->
  a <= Decimal.raiseToGrid a p < a + 10 ^ (9 - p) /\
  Decimal.raiseToGrid a p mod 10 ^ (9 - p) = 0.
Proof.
  intros Hp. unfold Decimal.raiseToGrid.
  assert (0 < 10 ^ (9 - p)) as Hu by (apply Z.pow_pos_nonneg; lia).
  set (u := 10 ^ (9 - p)) in *.
  split; [|apply Z.mod_mul; lia].
  pose proof (Z.div_mod (a + u - 1) u ltac:(lia)) as Hdm.
  pose proof (Z.mod_pos_bound (a + u - 1) u Hu) as Hr.
  lia.
Qed.

Lemma raiseToGrid_on_grid (a p : Z) :
  0 <= p <= 9 -> a mod 10 ^ (9 - p) = 0 -> Decimal.raiseToGrid a p = a.
Proof.
  intros Hp Hmod.
  assert (0 < 10 ^ (9 - p)) as Hu by (apply Z.pow_pos_nonneg; lia).
  destruct (raiseToGrid_bounds a p Hp) as [Hb Hm].
  set (u := 10 ^ (9 - p)) in *. set (v := Decimal.raiseToGrid a p) in *.
  pose proof (Z.div_mod a u ltac:(lia)) as Ha.
  pose proof (Z.div_mod v u ltac:(lia)) as Hv.
  rewrite Hmod in Ha. rewrite Hm in Hv.
  assert (v / u = a / u) by nia. lia.
Qed.

(** X3. The printed value never understates the amount and overstates it
    by less than one display unit: it is the least multiple of
    [10^(9-p)] that is not below the amount. *)
Theorem formatCoinsPure_rounds_up (a p : Z) :
  0 <= a -> 0 <= p <= 9 ->
  exists v,
    Decimal.subunitsOf (formatCoinsPure a p) = Some v /\
    a <= v < a + 10 ^ (9 - p) /\
    v mod 10 ^ (9 - p) = 0.
Proof.
  intros Ha Hp. exists (Decimal.raiseToGrid a p).
  split; [apply formatCoinsPure_value; assumption|].
  apply raiseToGrid_bounds, Hp.
Qed.

Lemma formatCoinsPure_rounds_up_witness :
  exists v,
    Decimal.subunitsOf (formatCoinsPure 123456789 6) = Some v /\
    123456789 <= v < 123456789 + 10 ^ (9 - 6) /\
    v mod 10 ^ (9 - 6) = 0.
Proof. apply (formatCoinsPure_rounds_up 123456789 6); lia. Defined.

(** X4. An amount that lies on the display grid is printed exactly: the
    string reads back to the amount itself. At precision 9 every amount
    does. *)
Theorem formatCoinsPure_exact_on_grid (a p : Z) :
  0 <= a -> 0 <= p <= 9 -> a mod 10 ^ (9 - p) = 0 ->
  Decimal.subunitsOf (formatCoinsPure a p) = Some a.
Proof.
  intros Ha Hp Hmod. rewrite formatCoinsPure_value by assumption.
  now rewrite raiseToGrid_on_grid.
Qed.

Lemma formatCoinsPure_exact_on_grid_witness :
  Decimal.subunitsOf (formatCoinsPure 1000000001 9) = Some 1000000001.
Proof.
  apply (formatCoinsPure_exact_on_grid 1000000001 9); [lia | lia | reflexivity].
Defined.

(** The rounding of an amount already on the grid gives back its parts. *)
Lemma spec_round_on_grid (w f p : Z) :
  0 <= w -> 0 <= p <= 9 -> 0 <= f < 10 ^ p ->
  Spec.round (w * 10 ^ 9 + f * 10 ^ (9 - p)) p = (w, f).
Proof.
  intros Hw Hp. unfold Spec.round.
  each_precision p Hp;
    match goal with
    | |- context [10 ^ (9 - ?k)] =>
        let v := eval vm_compute in (10 ^ (9 - k)) in
        change (10 ^ (9 - k)) with v
    end;
    match goal with
    | |- context [_ < 10 ^ ?k] =>
        let v := eval vm_compute in (10 ^ k) in change (10 ^ k) with v
    end;
    change (10 ^ 9) with 1000000000; intros Hf;
    (match goal with
     | |- context [0 <? ?x] => destruct (Z.ltb_spec 0 x) as [Hr | Hr]
     end; cbn [andb];
     [ exfalso; revert Hr; Z.div_mod_to_equations; lia
     | f_equal; Z.div_mod_to_equations; lia ]).
Qed.

(** X5. Formatting is idempotent through reading back: the amount a printed
    string denotes prints as the same string at the same precision. *)
Theorem formatCoinsPure_idempotent (a p v : Z) :
  0 <= a -> 0 <= p <= 9 ->
  Decimal.subunitsOf (formatCoinsPure a p) = Some v ->
  formatCoinsPure v p = formatCoinsPure a p.
Proof.
  intros Ha Hp Hv. rewrite formatCoinsPure_value in Hv by assumption.
  injection Hv as <-.
  destruct (raiseToGrid_bounds a p Hp) as [[Hge _] _].
  unfold formatCoinsPure.
  rewrite !roundCoins_spec_round by (assumption || lia).
  destruct (Spec.round a p) as [w f] eqn:Hr.
  destruct (spec_round_value _ _ _ _ Ha Hp Hr) as (Hw & Hf & Hsum).
  rewrite <- Hsum, spec_round_on_grid by assumption. reflexivity.
Qed.

Lemma formatCoinsPure_idempotent_witness :
  formatCoinsPure 123457000 6 = formatCoinsPure 123456789 6.
Proof.
  apply (formatCoinsPure_idempotent 123456789 6 123457000); [lia | lia |].
  vm_compute. reflexivity.
Defined.

(** X6. At precision 0 the output is an integer only: the number of units
    rounded up, without a point. *)
Theorem formatCoinsPure_precision_zero (a : Z) :
  0 <= a ->
  formatCoinsPure a 0 = JsString.toString ((a + 999999999) / 1000000000).
Proof.
  intros Ha. unfold formatCoinsPure.
  rewrite roundCoins_spec_round by lia.
  destruct (Spec.round a 0) as [w f] eqn:Hr.
  destruct (spec_round_value a 0 w f Ha ltac:(lia) Hr) as (Hw & Hf & Hsum).
  unfold Decimal.raiseToGrid in Hsum.
  change (10 ^ (9 - 0)) with 1000000000 in Hsum.
  change (10 ^ 9) with 1000000000 in Hsum.
  change (10 ^ 0) with 1 in Hf.
  assert (f = 0) as -> by lia.
  replace (a + 1000000000 - 1) with (a + 999999999) in Hsum by lia.
  assert (w = (a + 999999999) / 1000000000) as -> by lia.
  unfold renderCoins. cbn [Z.eqb negb]. apply string_app_empty_r.
Qed.

Lemma formatCoinsPure_precision_zero_witness :
  formatCoinsPure 1000000001 0 =
  JsString.toString ((1000000001 + 999999999) / 1000000000).
Proof. apply (formatCoinsPure_precision_zero 1000000001). lia. Defined.

Lemma stripTrailingZeros_idempotent (s : string) :
  JsString.stripTrailingZeros (JsString.stripTrailingZeros s) =
  JsString.stripTrailingZeros s.
Proof.
  induction s as [|c r IH]; [reflexivity|].
  cbn [JsString.stripTrailingZeros].
  destruct (JsString.stripTrailingZeros r) as [|c' r'] eqn:Hr.
  - destruct (Ascii.eqb c "0") eqn:Hc; [reflexivity|].
    cbn [JsString.stripTrailingZeros]. now rewrite Hc.
  - cbn [JsString.stripTrailingZeros] in *. rewrite IH. reflexivity.
Qed.

(** X7. The shape of the output for a non-negative amount: the decimal
    digits of a whole part, alone or followed by a point and between one and
    [p] fraction digits that make a positive number and do not end in a
    zero. *)
Theorem formatCoinsPure_shape (a p : Z) :
  0 <= a -> 0 <= p <= 9 ->
  exists w,
    0 <= w /\
    (formatCoinsPure a p = JsString.toString w \/
     exists digits y,
       formatCoinsPure a p = JsString.toString w +:+ "." +:+ digits /\
       Decimal.numeral digits = Some y /\ 0 < y /\
       0 < JsString.len digits <= p /\
       JsString.stripTrailingZeros digits = digits).
Proof.
  intros Ha Hp. unfold formatCoinsPure.
  rewrite roundCoins_spec_round by assumption.
  destruct (Spec.round a p) as [w f] eqn:Hr.
  destruct (spec_round_value _ _ _ _ Ha Hp Hr) as (Hw & Hf & _).
  exists w. split; [assumption|]. unfold renderCoins.
  destruct (Z.eqb_spec f 0) as [-> | Hne]; cbn [negb].
  - left. apply string_app_empty_r.
  - right.
    destruct (fractionDigits_value f p ltac:(lia) ltac:(lia))
      as (y & Hy & Hle & Hfy).
    set (digits := JsString.stripTrailingZeros _) in *.
    exists digits, y. split; [reflexivity|]. split; [exact Hy|].
    assert (0 <= JsString.len digits) as Hlen0 by (unfold JsString.len; lia).
    assert (0 < 10 ^ (p - JsString.len digits)) as Hpow
      by (apply Z.pow_pos_nonneg; lia).
    split; [nia|]. split.
    + split; [|assumption]. unfold JsString.len.
      destruct digits; [discriminate Hy | simpl; lia].
    + apply stripTrailingZeros_idempotent.
Qed.

Lemma formatCoinsPure_shape_witness :
  exists w,
    0 <= w /\
    (formatCoinsPure 50000000 6 = JsString.toString w \/
     exists digits y,
       formatCoinsPure 50000000 6 = JsString.toString w +:+ "." +:+ digits /\
       Decimal.numeral digits = Some y /\ 0 < y /\
       0 < JsString.len digits <= 6 /\
       JsString.stripTrailingZeros digits = digits).
Proof. apply (formatCoinsPure_shape 50000000 6); lia. Defined.

Lemma rem_nonpos (a b : Z) : a <= 0 -> Z.rem a b <= 0.
Proof.
  intros Ha. destruct (Z.eq_dec b 0) as [-> | Hb].
  - rewrite Z.rem_0_r_ext by reflexivity. assumption.
  - replace a with (- - a) by lia. rewrite Z.rem_opp_l by assumption.
    pose proof (Z.rem_nonneg (- a) b Hb ltac:(lia)). lia.
Qed.

(** X8. An amount that is not positive is never rounded: the whole part
    and the numerator are the quotients truncated towards zero, at every
    precision. *)
Theorem roundCoins_nonpositive (a p : Z) :
  a <= 0 ->
  roundCoins a p =
  (Z.quot a decimal, Z.quot (Z.rem a decimal) (pow10 (decimalCount - p))).
Proof.
  intros Ha. unfold roundCoins.
  pose proof (rem_nonpos (Z.rem a decimal) (pow10 (decimalCount - p))
                (rem_nonpos a decimal Ha)) as Hr.
  destruct (Z.gtb_spec (Z.rem (Z.rem a decimal) (pow10 (decimalCount - p))) 0);
    [lia | reflexivity].
Qed.

Lemma roundCoins_nonpositive_witness :
  roundCoins (-1500000001) 6 =
  (Z.quot (-1500000001) decimal,
   Z.quot (Z.rem (-1500000001) decimal) (pow10 (decimalCount - 6))).
Proof. apply (roundCoins_nonpositive (-1500000001) 6). lia. Defined.

(** ** Shortened strings *)

Lemma sliceFirst_length (n : nat) (s : string) :
  String.length (JsString.sliceFirst n s) = Nat.min n (String.length s).
Proof.
  revert s. induction n as [|n IH]; intros [|c r]; simpl; try reflexivity.
  now rewrite IH.
Qed.

Lemma dropFirst_length (n : nat) (s : string) :
  String.length (JsString.dropFirst n s) = (String.length s - n)%nat.
Proof.
  revert s. induction n as [|n IH]; intros [|c r]; simpl; try reflexivity.
  apply IH.
Qed.

(** X9. [shortenString] returns a string of its input's length when that is
    at most 8, and of length 11 otherwise. *)
Theorem shortenString_length (s : string) :
  String.length (shortenString s) =
  if (String.length s <=? 8)%nat then String.length s else 11%nat.
Proof.
  unfold shortenString, JsString.len, JsString.sliceLast.
  destruct (Z.leb_spec (Z.of_nat (String.length s)) 8) as [Hle | Hgt];
    destruct (Nat.leb_spec (String.length s) 8) as [Hle' | Hgt'];
    try (exfalso; lia).
  - reflexivity.
  - rewrite !string_app_length, sliceFirst_length, dropFirst_length.
    change (String.length "...") with 3%nat. lia.
Qed.

Lemma shortenString_joined (x y : string) :
  String.length x = 4%nat -> String.length y = 4%nat ->
  shortenString (x +:+ "..." +:+ y) = x +:+ "..." +:+ y.
Proof.
  intros Hx Hy.
  destruct x as [|a [|b [|c [|d [|e x]]]]]; try discriminate Hx.
  destruct y as [|a' [|b' [|c' [|d' [|e' y]]]]]; try discriminate Hy.
  reflexivity.
Qed.

(** X10. [shortenString] is idempotent: a shortened string is shortened to
    itself. *)
Theorem shortenString_idempotent (s : string) :
  shortenString (shortenString s) = shortenString s.
Proof.
  unfold shortenString at 2 3. unfold JsString.len.
  destruct (Z.leb_spec (Z.of_nat (String.length s)) 8) as [Hle | Hgt].
  - unfold shortenString, JsString.len.
    destruct (Z.leb_spec (Z.of_nat (String.length s)) 8); [reflexivity | lia].
  - apply shortenString_joined.
    + rewrite sliceFirst_length. lia.
    + unfold JsString.sliceLast. rewrite dropFirst_length. lia.
Qed.

(** ** The registry of labels *)

Section RegistryFacts.

Context {Address : Type} (addressToString : Address -> string).

Implicit Types (contractLabels : gmap string string).
Implicit Types (contract : ContractRef (Address := Address)).

(** X11. The map after [addContract], thrown or not: a key that had a
    label keeps it, the key of the call gets the new label only when it had
    none, and no other key appears. *)
Theorem addContract_lookup contract (label key : string) contractLabels :
  snd (addContract addressToString contract label contractLabels) !! key =
  match contractLabels !! key with
  | Some old => Some old
  | None =>
      if decide (key = getAddressString addressToString contract)
      then Some label else None
  end.
Proof.
  unfold addContract.
  destruct (contractLabels !! getAddressString addressToString contract)
    as [old|] eqn:Hold; cbn [snd].
  - destruct (contractLabels !! key) eqn:Hkey; [reflexivity|].
    case_decide; [congruence | reflexivity].
  - case_decide as Hk.
    + subst key. rewrite lookup_insert_eq, Hold. reflexivity.
    + rewrite lookup_insert_ne by congruence.
      destruct (contractLabels !! key); reflexivity.
Qed.

(** X12. A label that is not empty, registered for a key that had none, is
    what [getContractLabel] returns afterwards for every address with that
    string form, in whichever form the contract was given. *)
Theorem addContract_then_getContractLabel contract (address : Address)
    (label : string) contractLabels :
  getAddressString addressToString contract = addressToString address ->
  contractLabels !! addressToString address = None ->
  label <> "" ->
  fst (addContract addressToString contract label contractLabels) = inr tt /\
  getContractLabel addressToString
    (snd (addContract addressToString contract label contractLabels)) address =
  label.
Proof.
  intros Hkey Hnone Hlabel. unfold addContract, getContractLabel.
  rewrite Hkey, Hnone. cbn [fst snd]. rewrite lookup_insert_eq.
  split; [reflexivity|]. destruct label; [contradiction | reflexivity].
Qed.

(** X13. The empty label is accepted and takes the key, yet it never
    shows: the address still resolves to its shortened form, and a later
    registration of the key throws. *)
Theorem addContract_empty_label contract (address : Address)
    (later : string) contractLabels :
  getAddressString addressToString contract = addressToString address ->
  contractLabels !! addressToString address = None ->
  fst (addContract addressToString contract "" contractLabels) = inr tt /\
  getContractLabel addressToString
    (snd (addContract addressToString contract "" contractLabels)) address =
  shortenString (addressToString address) /\
  exists error,
    fst (addContract addressToString contract later
           (snd (addContract addressToString contract "" contractLabels))) =
    inl error.
Proof.
  intros Hkey Hnone. unfold addContract, getContractLabel.
  rewrite Hkey, Hnone. cbn [fst snd]. rewrite lookup_insert_eq.
  repeat split; eauto.
Qed.

(** X14. The key is the string form of the address: a contract registered
    as an opened contract is already labelled for its address and for the
    string of its address. The message of the exception quotes that string
    and the label that was refused, not the label in place. *)
Theorem addContract_same_address (address : Address) (first second : string)
    contract contractLabels :
  contractLabels !! addressToString address = None ->
  contract = RefAddress address \/ contract = RefContract address \/
  contract = RefString (addressToString address) ->
  addContract addressToString contract second
    (snd (addContract addressToString (RefContract address) first contractLabels)) =
  (inl (MkError ("The '" +:+ addressToString address
                  +:+ "' contract already has a '" +:+ second +:+ "' label!")),
   <[addressToString address := first]> contractLabels).
Proof.
  intros Hnone Hcontract.
  assert (getAddressString addressToString contract = addressToString address)
    as Hkey by (destruct Hcontract as [-> | [-> | ->]]; reflexivity).
  unfold addContract at 2. cbn [getAddressString]. rewrite Hnone. cbn [snd].
  unfold addContract. rewrite Hkey, lookup_insert_eq. reflexivity.
Qed.

End RegistryFacts.

Lemma addContract_then_getContractLabel_witness :
  fst (addContract Sample.addressText (RefContract "EQAAAAAAAAAAAAAAA")
         "Counter" ∅) = inr tt /\
  getContractLabel Sample.addressText
    (snd (addContract Sample.addressText (RefContract "EQAAAAAAAAAAAAAAA")
            "Counter" ∅)) "EQAAAAAAAAAAAAAAA" = "Counter".
Proof.
  apply (addContract_then_getContractLabel Sample.addressText
           (RefContract "EQAAAAAAAAAAAAAAA") "EQAAAAAAAAAAAAAAA" "Counter" ∅).
  - reflexivity.
  - vm_compute. reflexivity.
  - discriminate.
Defined.

Lemma addContract_empty_label_witness :
  fst (addContract Sample.addressText (RefString "EQAAAAAAAAAAAAAAA") "" ∅) =
  inr tt /\
  getContractLabel Sample.addressText
    (snd (addContract Sample.addressText (RefString "EQAAAAAAAAAAAAAAA") "" ∅))
    "EQAAAAAAAAAAAAAAA" = shortenString (Sample.addressText "EQAAAAAAAAAAAAAAA") /\
  exists error,
    fst (addContract Sample.addressText (RefString "EQAAAAAAAAAAAAAAA") "Counter"
           (snd (addContract Sample.addressText (RefString "EQAAAAAAAAAAAAAAA")
                   "" ∅))) = inl error.
Proof.
  apply (addContract_empty_label Sample.addressText
           (RefString "EQAAAAAAAAAAAAAAA") "EQAAAAAAAAAAAAAAA" "Counter" ∅).
  - reflexivity.
  - vm_compute. reflexivity.
Defined.

Lemma addContract_same_address_witness :
  addContract Sample.addressText (RefString "EQAAAAAAAAAAAAAAA") "Other"
    (snd (addContract Sample.addressText (RefContract "EQAAAAAAAAAAAAAAA")
            "Counter" ∅)) =
  (inl (MkError "The 'EQAAAAAAAAAAAAAAA' contract already has a 'Other' label!"),
   <["EQAAAAAAAAAAAAAAA" := "Counter"]> ∅).
Proof.
  apply (addContract_same_address Sample.addressText "EQAAAAAAAAAAAAAAA"
           "Counter" "Other" (RefString "EQAAAAAAAAAAAAAAA") ∅).
  - vm_compute. reflexivity.
  - right. right. reflexivity.
Defined.

(** ** The summarizer *)

Lemma digitsFrom_length_radix (radix : Z) (fuel k : nat) (n : Z) (acc : string) :
  2 <= radix ->
  0 <= n < radix ^ Z.of_nat (S k) ->
  (String.length (JsString.digitsFrom fuel radix n acc) <= S k + String.length acc)%nat.
Proof.
  intros Hradix. revert k n acc.
  induction fuel as [|fuel IH]; intros k n acc Hn.
  - simpl. lia.
  - cbn [JsString.digitsFrom].
    rewrite Nat2Z.inj_succ, Z.pow_succ_r in Hn by lia.
    destruct (Z.eqb_spec (n / radix) 0) as [Hq | Hq].
    + simpl. lia.
    + assert (0 <= n / radix < radix ^ Z.of_nat k) as Hq'
        by (split; [apply Z.div_pos; lia | apply Z.div_lt_upper_bound; lia]).
      destruct k as [|k].
      { change (radix ^ Z.of_nat 0) with 1 in Hq'. lia. }
      etransitivity; [apply (IH k); exact Hq'|]. simpl. lia.
Qed.

Lemma readUint_bounds (k : nat) (bits : list bool) (acc : Z) :
  0 <= acc -> 0 <= readUint k bits acc < (acc + 1) * 2 ^ Z.of_nat k.
Proof.
  revert bits acc. induction k as [|k IH]; intros bits acc Hacc.
  - simpl. lia.
  - rewrite Nat2Z.inj_succ, Z.pow_succ_r by lia.
    assert (0 < 2 ^ Z.of_nat k) as Hpow by (apply Z.pow_pos_nonneg; lia).
    destruct bits as [|b rest]; cbn [readUint]; [nia|].
    destruct (IH rest (2 * acc + (if b then 1 else 0))
                ltac:(destruct b; lia)) as [Hlo Hhi].
    split; [exact Hlo|]. destruct b; nia.
Qed.

(** The hexadecimal form of a 32-bit tag has between one and eight digits. *)
Lemma opcode_hex_length (bits : list bool) :
  1 <= JsString.len (JsString.toStringRadix 16 (readUint 32 bits 0)) <= 8.
Proof.
  pose proof (readUint_bounds 32 bits 0 ltac:(lia)) as Hb.
  change ((0 + 1) * 2 ^ Z.of_nat 32) with (16 ^ Z.of_nat 8) in Hb.
  unfold JsString.toStringRadix, JsString.len.
  destruct (Z.ltb_spec (readUint 32 bits 0) 0) as [Hneg | _]; [lia|].
  unfold JsString.natToString.
  pose proof (digitsFrom_length_radix 16 (JsString.digitFuel (readUint 32 bits 0))
                7 _ "" ltac:(lia) Hb) as Hlen.
  pose proof (digitsFrom_nonempty (Z.to_nat (Z.log2 (readUint 32 bits 0)))
                16 (readUint 32 bits 0)) as Hne.
  fold (JsString.digitFuel (readUint 32 bits 0)) in Hne.
  destruct (JsString.digitsFrom _ 16 _ "") as [|c r]; [contradiction|].
  cbn [String.length] in *. lia.
Qed.

(** Reads a property of an object literal whose keys are literals. *)
Ltac read_field :=
  unfold getProperty, hasProperty, existsb;
  repeat match goal with
         | |- context [String.eqb ?k1 ?k2] =>
             let b := eval vm_compute in (String.eqb k1 k2) in
             change (String.eqb k1 k2) with b
         end;
  cbv beta iota; cbn [fst snd orb].

Section SummarizerFacts.

Context {Address : Type} (addressToString : Address -> string).

Implicit Types (contractLabels : gmap string string).
Implicit Types (tx : Transaction (Address := Address)).
Implicit Types (m : Message (Address := Address)).

(** X15. The [Opcode] field is "0x" and the one to eight hexadecimal digits
    of the first 32 bits of the body when the inbound message is internal
    with a body of 32 bits or more, and the sentinel in every other case;
    the two never coincide. *)
Theorem opcodeField_cases tx :
  (exists bits,
     hasOpcode tx bits /\
     opcodeField tx =
     JsStr ("0x" +:+ JsString.toStringRadix 16 (readUint 32 bits 0)) /\
     1 <= JsString.len (JsString.toStringRadix 16 (readUint 32 bits 0)) <= 8 /\
     opcodeField tx <> JsStr "0gR33n0gr") \/
  (opcodeField tx = JsStr "0gR33n0gr" /\ forall bits, ~ hasOpcode tx bits).
Proof.
  unfold opcodeField, hasOpcode.
  destruct (inMessage tx) as [m|] eqn:Hm.
  2: { right. split; [reflexivity|].
       intros bits (m & ? & ? & ? & Hm' & _). discriminate. }
  destruct (info m) as [src dest coins| |] eqn:Hinfo.
  2,3: right; split; [reflexivity|];
       intros bits (m' & ? & ? & ? & Hm' & Hinfo' & _);
       injection Hm' as <-; congruence.
  destruct (body m) as [[bits]|] eqn:Hbody; cbn [option_map].
  2: { right. split; [reflexivity|].
       intros bits (m' & ? & ? & ? & Hm' & _ & Hbody' & _).
       injection Hm' as <-. congruence. }
  unfold remainingBits, beginParse, preloadUint. cbn [sliceBits cellBits].
  destruct (Z.geb_spec (Z.of_nat (List.length bits)) 32) as [Hge | Hlt].
  - left. exists bits. split; [|split; [reflexivity|split]].
    + exists m, src, dest, coins.
      repeat split; first [reflexivity | assumption | lia].
    + apply opcode_hex_length.
    + discriminate.
  - right. split; [reflexivity|].
    intros bits' (m' & ? & ? & ? & Hm' & _ & Hbody' & Hlen).
    injection Hm' as <-. rewrite Hbody in Hbody'. injection Hbody' as <-. lia.
Qed.

(** X16. Without inbound message the row does not depend on the labels:
    the source and destination are the two placeholder names, the opcode is
    the sentinel and the incoming value is the infinity sentinel. *)
Theorem formatTransaction_no_inbound contractLabels tx (row : JsObject) :
  formatTransaction addressToString contractLabels tx = Some row ->
  inMessage tx = None ->
  getProperty "Source" row = JsStr "Shrek" /\
  getProperty "Destination" row = JsStr "Donkey" /\
  getProperty "Opcode" row = JsStr "0gR33n0gr" /\
  getProperty "Incoming Value" row = JsStr infinitySentinel.
Proof.
  unfold formatTransaction. destruct (description tx); try discriminate.
  intros Hrow Hm. injection Hrow as <-. unfold opcodeField. rewrite Hm.
  repeat split; read_field; reflexivity.
Qed.

(** X17. With an inbound message, the source is resolved for an internal
    or external-out message and is the placeholder for an external-in one;
    the destination is resolved for an internal or external-in message and
    is the placeholder for an external-out one; the incoming value is the
    formatted amount of an internal message at precision 6 and the infinity
    sentinel otherwise. *)
Theorem formatTransaction_inbound_fields contractLabels tx (row : JsObject) m :
  formatTransaction addressToString contractLabels tx = Some row ->
  inMessage tx = Some m ->
  getProperty "Source" row =
  JsStr (match info m with
         | InfoInternal src _ _ | InfoExternalOut src _ =>
             getContractLabel addressToString contractLabels src
         | InfoExternalIn _ _ => "Shrek"
         end) /\
  getProperty "Destination" row =
  JsStr (match info m with
         | InfoInternal _ dest _ | InfoExternalIn _ dest =>
             getContractLabel addressToString contractLabels dest
         | InfoExternalOut _ _ => "Donkey"
         end) /\
  getProperty "Incoming Value" row =
  JsStr (match info m with
         | InfoInternal _ _ coins => formatCoinsPure coins 6
         | _ => infinitySentinel
         end).
Proof.
  unfold formatTransaction. destruct (description tx); try discriminate.
  intros Hrow Hm. injection Hrow as <-. rewrite Hm.
  repeat split; read_field; destruct (info m); reflexivity.
Qed.

(** X18. A label registered for an address shows in the rows made
    afterwards: an internal message from that address gets the label as its
    source. *)
Theorem formatTransaction_registered_source contractLabels tx
    (row : JsObject) m (src dest : Address) (coins : Z) (label : string) :
  contractLabels !! addressToString src = None ->
  label <> "" ->
  inMessage tx = Some m ->
  info m = InfoInternal src dest coins ->
  formatTransaction addressToString
    (snd (addContract addressToString (RefAddress src) label contractLabels))
    tx = Some row ->
  getProperty "Source" row = JsStr label.
Proof.
  intros Hnone Hlabel Hm Hinfo Hrow.
  unfold formatTransaction in Hrow.
  destruct (description tx); try discriminate.
  injection Hrow as <-. rewrite Hm, Hinfo. read_field.
  cbn [labelOr infoSrcAddress]. unfold addContract, getContractLabel.
  cbn [getAddressString]. rewrite Hnone. cbn [snd].
  rewrite lookup_insert_eq. destruct label; [contradiction | reflexivity].
Qed.

(** X19. The [Total Fees] field of a row is a decimal string that reads
    back to the fee raised to the next multiple of 1000 subunits: it never
    understates a non-negative fee. *)
Theorem formatTransaction_total_fees contractLabels tx (row : JsObject) :
  formatTransaction addressToString contractLabels tx = Some row ->
  0 <= totalFees tx ->
  exists text v,
    getProperty "Total Fees" row = JsStr text /\
    Decimal.subunitsOf text = Some v /\
    totalFees tx <= v < totalFees tx + 1000.
Proof.
  unfold formatTransaction. destruct (description tx); try discriminate.
  intros Hrow Hfees. injection Hrow as <-.
  exists (formatCoinsPure (totalFees tx) 6), (Decimal.raiseToGrid (totalFees tx) 6).
  split; [read_field; reflexivity|].
  split; [apply formatCoinsPure_value; lia|].
  apply (raiseToGrid_bounds (totalFees tx) 6). lia.
Qed.

(** X20. What [logTransactions] prints: the note first when it is a string
    that is not empty, then one table; an empty note is not printed, and the
    table is printed even when it is empty. *)
Theorem logTransactions_calls contractLabels (txs : list Transaction)
    (note : option string) :
  logTransactions addressToString contractLabels txs note =
  match note with
  | Some text => if decide (text = "") then [] else [ConsoleInfo text]
  | None => []
  end
  ++ [ConsoleTable
        (List.map (formatTransaction addressToString contractLabels)
           (List.filter isGeneric txs))].
Proof.
  unfold logTransactions. rewrite filter_formatted.
  destruct note as [[|c r]|]; reflexivity.
Qed.

End SummarizerFacts.

Lemma formatTransaction_no_inbound_witness :
  exists row,
    formatTransaction Sample.addressText ∅ Sample.bare = Some row /\
    getProperty "Source" row = JsStr "Shrek" /\
    getProperty "Destination" row = JsStr "Donkey" /\
    getProperty "Opcode" row = JsStr "0gR33n0gr" /\
    getProperty "Incoming Value" row = JsStr infinitySentinel.
Proof.
  eexists. split; [vm_compute; reflexivity|].
  apply (formatTransaction_no_inbound Sample.addressText ∅ Sample.bare);
    [vm_compute; reflexivity | reflexivity].
Defined.

Lemma formatTransaction_inbound_fields_witness :
  exists row,
    formatTransaction Sample.addressText ∅ Sample.transfer = Some row /\
    getProperty "Source" row = JsStr "EQAA...AAAA" /\
    getProperty "Destination" row = JsStr "EQBBBB" /\
    getProperty "Incoming Value" row = JsStr "0.05".
Proof.
  eexists. split; [vm_compute; reflexivity|].
  refine (formatTransaction_inbound_fields Sample.addressText ∅
            Sample.transfer _ _ _ eq_refl).
  vm_compute. reflexivity.
Defined.

Lemma formatTransaction_registered_source_witness :
  exists row,
    formatTransaction Sample.addressText
      (snd (addContract Sample.addressText (RefAddress "EQAAAAAAAAAAAAAAA")
              "Wallet" ∅))
      Sample.transfer = Some row /\
    getProperty "Source" row = JsStr "Wallet".
Proof.
  eexists. split; [vm_compute; reflexivity|].
  refine (formatTransaction_registered_source Sample.addressText ∅
            Sample.transfer _ _ "EQAAAAAAAAAAAAAAA" "EQBBBB" 50000000 "Wallet"
            _ _ eq_refl eq_refl _).
  - vm_compute. reflexivity.
  - discriminate.
  - vm_compute. reflexivity.
Defined.

Lemma formatTransaction_total_fees_witness :
  exists text v,
    option_map (getProperty "Total Fees")
      (formatTransaction Sample.addressText ∅ Sample.transfer) =
    Some (JsStr text) /\
    Decimal.subunitsOf text = Some v /\
    123456789 <= v < 123456789 + 1000.
Proof.
  destruct (formatTransaction_total_fees Sample.addressText ∅ Sample.transfer
              _ eq_refl ltac:(simpl; lia)) as (text & v & Htext & Hv & Hb).
  exists text, v. split; [|split; assumption].
  simpl option_map. f_equal. exact Htext.
Defined.

Lemma formatTransaction_defined_fields_witness :
  exists row,
    formatTransaction Sample.addressText ∅ Sample.emitter = Some row /\
    List.map fst row =
    ["Source"; "Destination"; "Type"; "Opcode"; "Incoming Value";
     "Outgoing Value"; "Total Fees"; "Outgoing Actions Count"; "Exit Code"] /\
    forall key, In key (List.map fst row) -> key <> "Type" ->
                isDefined (getProperty key row) = true.
Proof.
  eexists. split; [vm_compute; reflexivity|].
  apply (formatTransaction_defined_fields Sample.addressText ∅ Sample.emitter).
  vm_compute. reflexivity.
Defined.

(** ** The table of balances *)

Lemma labelsOf_lookup (key : string) (entries : LabelEntries) :
  entriesHas key entries = false <-> labelsOf entries !! key = None.
Proof.
  unfold labelsOf, entriesHas.
  induction entries as [|[k v] rest IH]; [split; reflexivity|].
  cbn [existsb fst list_to_map uncurry]. simpl.
  destruct (String.eqb_spec k key) as [-> | Hne]; cbn [orb].
  - rewrite lookup_insert_eq. split; discriminate.
  - rewrite lookup_insert_ne by assumption. exact IH.
Qed.

Lemma labelsOf_snoc (key label : string) (entries : LabelEntries) :
  entriesHas key entries = false ->
  labelsOf (entries ++ [(key, label)]) = <[key := label]> (labelsOf entries).
Proof.
  unfold labelsOf, entriesHas.
  induction entries as [|[k v] rest IH]; intros Hhas; [reflexivity|].
  cbn [existsb fst] in Hhas. apply orb_false_iff in Hhas as [Hk Hrest].
  apply String.eqb_neq in Hk.
  simpl. rewrite IH by assumption. apply insert_insert_ne. congruence.
Qed.

Lemma entriesHas_keys (key : string) (entries : LabelEntries) :
  entriesHas key entries = false -> ~ In key (List.map fst entries).
Proof.
  unfold entriesHas. induction entries as [|[k v] rest IH]; intros Hhas Hin.
  - contradiction.
  - cbn [existsb fst] in Hhas. apply orb_false_iff in Hhas as [Hk Hrest].
    apply String.eqb_neq in Hk. destruct Hin as [Heq | Hin]; [contradiction|].
    exact (IH Hrest Hin).
Qed.

Section BalanceFacts.

Context {Address : Type} (addressToString : Address -> string).
Context (addressParse : string -> Error + Address).
Context (getContractBalanceOf : Address -> Error + Z).

(** X21. The list of entries and the map agree on [addContract]: the same
    call throws or returns on both, and the entries afterwards represent
    the map afterwards. *)
Theorem addContractOrdered_refines (contract : ContractRef (Address := Address))
    (label : string) (entries : LabelEntries) :
  fst (addContractOrdered addressToString contract label entries) =
  fst (addContract addressToString contract label (labelsOf entries)) /\
  labelsOf (snd (addContractOrdered addressToString contract label entries)) =
  snd (addContract addressToString contract label (labelsOf entries)).
Proof.
  unfold addContractOrdered, addContract.
  destruct (entriesHas (getAddressString addressToString contract) entries)
    eqn:Hhas.
  - destruct (labelsOf entries !! getAddressString addressToString contract)
      eqn:Hlook; [split; reflexivity|].
    apply labelsOf_lookup in Hlook. congruence.
  - pose proof (proj1 (labelsOf_lookup _ _) Hhas) as Hlook. rewrite Hlook.
    split; [reflexivity|]. cbn [snd]. apply labelsOf_snoc, Hhas.
Qed.

(** X22. [addContract] keeps the keys distinct and the order of insertion:
    the entries afterwards are the entries before, followed by the new one
    when the call returned. *)
Theorem addContractOrdered_appends (contract : ContractRef (Address := Address))
    (label : string) (entries : LabelEntries) :
  List.NoDup (List.map fst entries) ->
  List.NoDup
    (List.map fst (snd (addContractOrdered addressToString contract label entries))) /\
  snd (addContractOrdered addressToString contract label entries) =
  match fst (addContractOrdered addressToString contract label entries) with
  | inr _ => entries ++ [(getAddressString addressToString contract, label)]
  | inl _ => entries
  end.
Proof.
  intros Hnodup. unfold addContractOrdered.
  destruct (entriesHas (getAddressString addressToString contract) entries)
    eqn:Hhas; cbn [fst snd]; split; try reflexivity; try assumption.
  rewrite List.map_app. cbn [List.map fst].
  apply List.NoDup_app; repeat split.
  - assumption.
  - apply List.NoDup_cons; [intros [] | apply List.NoDup_nil].
  - intros key Hin [<- | []]. exact (entriesHas_keys _ _ Hhas Hin).
Qed.

(** One turn of the loop of [getContractData] after another, as long as
    the entries are fetched. *)
Lemma getContractDataLoop_fetched (pre rest : LabelEntries) (balances : list Z)
    (data : list JsObject) :
  List.Forall2 (fetched addressParse getContractBalanceOf) pre balances ->
  getContractDataLoop addressParse getContractBalanceOf (pre ++ rest) data =
  getContractDataLoop addressParse getContractBalanceOf rest
    (data ++ List.map (fun eb => balanceRow (snd (fst eb)) (snd eb))
               (List.combine pre balances)).
Proof.
  intros Hall. revert data.
  induction Hall as [|[key label] balance pre balances (a & Hparse & Hbal) _ IH];
    intros data.
  - cbn [List.combine List.map]. now rewrite List.app_nil_r.
  - cbn [List.app getContractDataLoop fst] in *.
    unfold getContractBalance. rewrite Hparse, Hbal, IH.
    cbn [List.combine List.map fst snd]. rewrite <- List.app_assoc.
    cbn [List.app].
    destruct (getContractDataLoop addressParse getContractBalanceOf rest _);
      reflexivity.
Qed.

(** X23. When every key parses and every balance is fetched,
    [logContracts] prints one table and nothing else: one row per label, in
    insertion order, with the label and the balance formatted at
    precision 6. *)
Theorem logContracts_table (entries : LabelEntries) (balances : list Z) :
  List.Forall2 (fetched addressParse getContractBalanceOf) entries balances ->
  logContracts addressParse getContractBalanceOf entries =
  ([ConsoleBalances
      (List.map (fun eb => balanceRow (snd (fst eb)) (snd eb))
         (List.combine entries balances))],
   inr tt).
Proof.
  intros Hall. unfold logContracts, getContractData.
  rewrite <- (List.app_nil_r entries) at 1.
  rewrite (getContractDataLoop_fetched _ _ _ _ Hall). reflexivity.
Qed.

(** X24. A key that is not an address makes [logContracts] fail with the
    exception of the parser as soon as the loop reaches it: nothing is
    printed, neither a table nor an error. *)
Theorem logContracts_bad_address (pre post : LabelEntries) (balances : list Z)
    (key label : string) (error : Error) :
  List.Forall2 (fetched addressParse getContractBalanceOf) pre balances ->
  addressParse key = inl error ->
  logContracts addressParse getContractBalanceOf (pre ++ (key, label) :: post) =
  ([], inl error).
Proof.
  intros Hall Hparse. unfold logContracts, getContractData.
  rewrite (getContractDataLoop_fetched _ _ _ _ Hall).
  cbn [getContractDataLoop]. rewrite Hparse. reflexivity.
Qed.

(** X25. A balance that cannot be fetched makes [logContracts] fail with
    the error of the ledger, unchanged, after one [console.error] that
    carries it; no table is printed, whatever was fetched before. *)
Theorem logContracts_balance_failure (pre post : LabelEntries)
    (balances : list Z) (key label : string) (address : Address)
    (error : Error) :
  List.Forall2 (fetched addressParse getContractBalanceOf) pre balances ->
  addressParse key = inr address ->
  getContractBalanceOf address = inl error ->
  logContracts addressParse getContractBalanceOf (pre ++ (key, label) :: post) =
  ([ConsoleError "Error fetching contract balance:" error], inl error).
Proof.
  intros Hall Hparse Hbal. unfold logContracts, getContractData.
  rewrite (getContractDataLoop_fetched _ _ _ _ Hall).
  cbn [getContractDataLoop]. unfold getContractBalance.
  rewrite Hparse, Hbal. reflexivity.
Qed.

End BalanceFacts.

Lemma addContractOrdered_appends_witness :
  List.NoDup
    (List.map fst
       (snd (addContractOrdered Sample.addressText (RefString "EQCCCC")
               "Deployer" [("EQAAAA", "Counter")]))) /\
  snd (addContractOrdered Sample.addressText (RefString "EQCCCC") "Deployer"
         [("EQAAAA", "Counter")]) =
  [("EQAAAA", "Counter"); ("EQCCCC", "Deployer")].
Proof.
  apply (addContractOrdered_appends Sample.addressText (RefString "EQCCCC")
           "Deployer" [("EQAAAA", "Counter")]).
  apply List.NoDup_cons; [intros [] | apply List.NoDup_nil].
Defined.

Lemma sample_fetched (key : string) :
  SampleLedger.parse key = inr key ->
  SampleLedger.balanceOf key = inr 1500000000 ->
  forall label,
    fetched SampleLedger.parse SampleLedger.balanceOf (key, label) 1500000000.
Proof. intros Hparse Hbal label. exists key. split; assumption. Defined.

Lemma logContracts_table_witness :
  logContracts SampleLedger.parse SampleLedger.balanceOf
    [("EQAAAA", "Counter"); ("EQCCCC", "Deployer")] =
  ([ConsoleBalances
      [[("Contract", JsStr "Counter"); ("Contract Balance", JsStr "1.5")];
       [("Contract", JsStr "Deployer"); ("Contract Balance", JsStr "1.5")]]],
   inr tt).
Proof.
  apply (logContracts_table SampleLedger.parse SampleLedger.balanceOf
           [("EQAAAA", "Counter"); ("EQCCCC", "Deployer")]
           [1500000000; 1500000000]).
  repeat constructor; apply sample_fetched; reflexivity.
Defined.

Lemma logContracts_bad_address_witness :
  logContracts SampleLedger.parse SampleLedger.balanceOf
    [("EQAAAA", "Counter"); ("counter", "Typo"); ("EQCCCC", "Deployer")] =
  ([], inl (MkError "Unknown address type")).
Proof.
  apply (logContracts_bad_address SampleLedger.parse SampleLedger.balanceOf
           [("EQAAAA", "Counter")] [("EQCCCC", "Deployer")] [1500000000]
           "counter" "Typo").
  - repeat constructor; apply sample_fetched; reflexivity.
  - reflexivity.
Defined.

Lemma logContracts_balance_failure_witness :
  logContracts SampleLedger.parse SampleLedger.balanceOf
    [("EQAAAA", "Counter"); ("EQBBBB", "Gone"); ("EQCCCC", "Deployer")] =
  ([ConsoleError "Error fetching contract balance:" (MkError "Account not found")],
   inl (MkError "Account not found")).
Proof.
  apply (logContracts_balance_failure SampleLedger.parse SampleLedger.balanceOf
           [("EQAAAA", "Counter")] [("EQCCCC", "Deployer")] [1500000000]
           "EQBBBB" "Gone" "EQBBBB").
  - repeat constructor; apply sample_fetched; reflexivity.
  - reflexivity.
  - reflexivity.
Defined.

(** ** Precision out of range *)

(** X27. From precision 9 on the rounding no longer looks at the precision:
    the unit is one subunit, nothing is rounded, and the numerator is the
    fraction in subunits, which [padStart] then pads to more than nine
    digits. *)
Theorem roundCoins_precision_above (a p : Z) :
  9 <= p -> roundCoins a p = (Z.quot a decimal, Z.rem a decimal).
Proof.
  intros Hp. unfold roundCoins.
  rewrite (pow10_nonpos (decimalCount - p)) by (unfold decimalCount; lia).
  rewrite Z.rem_1_r. change (0 >? 0) with false. cbv beta iota zeta.
  rewrite Z.quot_1_r. reflexivity.
Qed.

Lemma roundCoins_precision_above_witness :
  roundCoins 1 10 = (Z.quot 1 decimal, Z.rem 1 decimal) /\
  formatCoinsPure 1 10 = "0.0000000001".
Proof.
  split; [apply (roundCoins_precision_above 1 10); lia | vm_compute; reflexivity].
Defined.
